(** * Transcription session of the speech-to-text page

    A shallow embedding of [src/app/page.tsx] (the [SpeechToTextApp]
    component): its React state, its refs, the browser objects it drives
    (media streams, media recorders, the speech recognizer, timers, the
    clipboard, the console) and every event handler that mutates them.

    Conventions.
    - A handler is a function on [Session]; whatever the browser decides
      (permission granted or denied, outcome of [fetch], outcome of the
      clipboard write) is a parameter of the handler.
    - The [await] of the transcription call cuts its handler in two
      ([onstop_begin], [onstop_resume]), and other events can be delivered
      in between. The short awaits ([getUserMedia], [writeText],
      [response.json()]) are taken together with their outcome: the
      handler around them runs in one piece.
    - The state updates of one handler are rendered together; the effects
      whose dependencies changed run after them ([render_effects]).
    - [try]/[catch]/[finally] is modelled in a small state-and-exception
      monad [M]; a thrown JavaScript error keeps the state reached so far.
    - A state updater that can throw runs while React renders, outside
      the [try] block of the handler that queued it. A handler reports
      such an updater with its result ([Render]); when it throws, none of
      the state updates of that handler is committed, and React, finding
      no error boundary, unmounts the component ([render_error]). What
      [step] gives from then on describes the callbacks that still run on
      the refs and the browser, with the last committed state.
    - A JavaScript string is a [string]; its characters are the code units
      below 256.

    The endpoint the page posts to, [src/app/api/transcribe/route.ts], is
    embedded in the module [Route]. *)

From Stdlib Require Import Ascii.
From Stdlib Require String DecimalString DecimalNat.
From stdpp Require Import base tactics option list strings.

(** ** JavaScript strings *)

Module Js.

(** Truthiness of a string: every string except the empty one. *)
Definition truthy (s : string) : bool :=
  match s with
  | EmptyString => false
  | String _ _ => true
  end.

(** [a === b] on strings. *)
Definition seq (a b : string) : bool := String.eqb a b.

(** [a || b] on strings. *)
Definition or (a b : string) : string := if truthy a then a else b.

(** White space and line terminators removed by [String.prototype.trim],
    among the code units below 256: TAB, LF, VT, FF, CR, SP, NBSP. *)
Definition isWhiteSpace (c : ascii) : bool :=
  let n := nat_of_ascii c in
  (n =? 9) || (n =? 10) || (n =? 11) || (n =? 12) || (n =? 13)
  || (n =? 32) || (n =? 160).

Fixpoint trimStart (s : string) : string :=
  match s with
  | EmptyString => EmptyString
  | String c s' => if isWhiteSpace c then trimStart s' else s
  end.

Definition trimEnd (s : string) : string :=
  String.rev (trimStart (String.rev s)).

Definition trim (s : string) : string := trimEnd (trimStart s).

(** [s.includes(sub)]. *)
Definition includes (s sub : string) : bool :=
  match String.index 0 sub s with
  | Some _ => true
  | None => false
  end.

(** The line feed character, and the two line feeds of the literal
    ['\n\n']. *)
Definition LF : string := String (ascii_of_nat 10) EmptyString.
Definition LFLF : string := LF +:+ LF.

(** [undefined] turned into a string by [+]. *)
Definition undefined_str : string := "undefined".

(** [s.slice(0, pos) + txt + s.slice(pos)] *)
Definition splice_in (pos : nat) (txt s : string) : string :=
  String.substring 0 pos s +:+ txt +:+
  String.substring pos (String.length s - pos) s.

(** [s.slice(0, pos) + s.slice(pos + len)] *)
Definition splice_out (pos len : nat) (s : string) : string :=
  String.substring 0 pos s +:+
  String.substring (pos + len) (String.length s - (pos + len)) s.

End Js.

(** ** Browser objects *)

(** An [Error] object; only its [message] is ever read. *)
Record JsError := mkJsError { message : string }.

(** A [Blob]: its bytes and its MIME type. *)
Record Blob := mkBlob { blob_data : string; blob_type : string }.

(** [blob.size] *)
Definition blob_size (b : Blob) : nat := String.length (blob_data b).

(** [new Blob(parts, { type })]: the bytes of the parts, in their order. *)
Definition new_Blob (parts : list Blob) (type : string) : Blob :=
  mkBlob (foldr (fun b data => blob_data b +:+ data) "" parts) type.

(** One [SpeechRecognitionResult]: [isFinal] and [result[0].transcript]. *)
Record SpeechRecognitionResult := mkResult {
  isFinal : bool;
  transcript0 : string
}.

(** [SpeechRecognitionEvent] *)
Record SpeechRecognitionEvent := mkResultEvent {
  results : list SpeechRecognitionResult;
  resultIndex : nat
}.

(** [KeyboardEvent]: the three properties [handleKeyDown] reads. *)
Record KeyboardEvent := mkKey {
  ctrlKey : bool;
  key : string;
  code : string
}.

(** The [SpeechRecognition] object held by [recognitionRef]. [started] is
    true from a successful [start()] until the [end] event. *)
Record SpeechRecognition := mkRecognition {
  continuous : bool;
  interimResults : bool;
  lang : string;
  started : bool
}.

Inductive RecorderState := inactive | recording.

Global Instance RecorderState_eq_dec : EqDecision RecorderState.
Proof. solve_decision. Defined.

(** A [MediaRecorder] made by [startWhisperRecording], with what its
    [onstop] closure captured: the [stream] and the [mimeType].
    [stop_fired] records that its [stop] event has been delivered. *)
Record MediaRecorder := mkRecorder {
  rec_stream : nat;
  rec_mimeType : string;
  rec_state : RecorderState;
  stop_fired : bool
}.

(** The multipart body built by [transcribeWithWhisper]. *)
Record FormData := mkFormData {
  form_audio : Blob;
  form_filename : string
}.

(** A [fetch('/api/transcribe')] in flight, with the stream its caller
    ([onstop]) releases when the call is over. *)
Record PendingFetch := mkPending {
  pf_body : FormData;
  pf_stream : nat;
  pf_settled : bool
}.

(** What [response.json()] gives: a parse failure, [null], or an object
    of which the fields [text] and [error] are read ([None] for
    [undefined]); any other JSON value reads like an object without
    these fields. *)
Inductive JsonBody :=
| JsonInvalid (e : JsError)
| JsonNull
| JsonObject (text : option string) (err : option string).

(** How the awaited [fetch] and the following [response.json()] end. *)
Inductive FetchOutcome :=
| FetchRejected (e : JsError)
| FetchResponse (ok : bool) (body : JsonBody).

(** How [navigator.mediaDevices.getUserMedia] ends. *)
Inductive UserMediaOutcome :=
| MediaGranted
| MediaDenied (e : JsError).

(** How [navigator.clipboard.writeText] ends. *)
Inductive ClipboardOutcome :=
| ClipboardWritten
| ClipboardFailed (e : JsError).

(** What the browser answers during the capability probe of the
    [selectedLanguage] effect. *)
Inductive ProbeOutcome :=
| ProbeNoConstructor      (* neither SpeechRecognition nor webkitSpeechRecognition *)
| ProbeStartThrows        (* testRecognition.start() throws *)
| ProbeRunning.           (* testRecognition.start() returned *)

(** ** Component state *)

Inductive Method := web_api | aiml.

Global Instance Method_eq_dec : EqDecision Method.
Proof. solve_decision. Defined.

(** The [useState] cells. *)
Record Hooks := mkHooks {
  isListening : bool;
  transcript : string;
  interimTranscript : string;
  selectedLanguage : string;
  isSupported : bool;
  error : string;
  copySuccess : bool;
  isTranscribing : bool;
  transcriptionMethod : Method;
  isRecording : bool;
  recordingTime : nat;
  autoCopyEnabled : bool;
  justStoppedRecording : bool
}.

(** The [useRef] cells. Streams and recorders are referred to by their
    index in the browser's tables. *)
Record Refs := mkRefs {
  recognitionRef : option SpeechRecognition;
  mediaRecorderRef : option nat;
  audioChunksRef : list Blob;
  streamRef : option nat;
  timerRef : option nat
}.

(** The browser side.
    - [mediaStreams]: one entry per stream returned by [getUserMedia];
      the entry counts how many times [track.stop()] ran on its tracks
      (a stream is live while the count is 0).
    - [mediaRecorders], [fetches]: the recorders and transcription calls
      created so far.
    - [intervals]: identifiers of the running [setInterval] timers;
      [nextInterval] is the next identifier.
    - [autoCopyTimer]: the pending timeout of the auto-copy effect, as
      (delay in ms, the [transcript] its [copyToClipboard] closed over).
    - [keydownClosure]: [isSupported] and [selectedLanguage] as seen by
      the registered [handleKeyDown] (its effect re-registers only when
      one of its dependencies changes). *)
Record Browser := mkBrowser {
  mediaStreams : list nat;
  mediaRecorders : list MediaRecorder;
  fetches : list PendingFetch;
  intervals : list nat;
  nextInterval : nat;
  clipboard : string;
  console : list string;
  autoCopyTimer : option (nat * string);
  keydownClosure : bool * string
}.

Record Session := mkSession {
  hooks : Hooks;
  refs : Refs;
  browser : Browser
}.

(** ** State setters

    One function per [useState] setter and per ref or browser cell that
    the handlers write. *)

Section Setters.

Definition with_hooks (f : Hooks → Hooks) (s : Session) : Session :=
  mkSession (f (hooks s)) (refs s) (browser s).
Definition with_refs (f : Refs → Refs) (s : Session) : Session :=
  mkSession (hooks s) (f (refs s)) (browser s).
Definition with_browser (f : Browser → Browser) (s : Session) : Session :=
  mkSession (hooks s) (refs s) (f (browser s)).

Definition setIsListening (v : bool) : Session → Session :=
  with_hooks (fun h =>
    mkHooks v (transcript h) (interimTranscript h) (selectedLanguage h)
      (isSupported h) (error h) (copySuccess h) (isTranscribing h)
      (transcriptionMethod h) (isRecording h) (recordingTime h)
      (autoCopyEnabled h) (justStoppedRecording h)).

(** [setTranscript(prev => f(prev))]; [setTranscript(v)] is the constant
    update. *)
Definition updTranscript (f : string → string) : Session → Session :=
  with_hooks (fun h =>
    mkHooks (isListening h) (f (transcript h)) (interimTranscript h)
      (selectedLanguage h) (isSupported h) (error h) (copySuccess h)
      (isTranscribing h) (transcriptionMethod h) (isRecording h)
      (recordingTime h) (autoCopyEnabled h) (justStoppedRecording h)).
Definition setTranscript (v : string) : Session → Session :=
  updTranscript (fun _ => v).

Definition setInterimTranscript (v : string) : Session → Session :=
  with_hooks (fun h =>
    mkHooks (isListening h) (transcript h) v (selectedLanguage h)
      (isSupported h) (error h) (copySuccess h) (isTranscribing h)
      (transcriptionMethod h) (isRecording h) (recordingTime h)
      (autoCopyEnabled h) (justStoppedRecording h)).

Definition setSelectedLanguage (v : string) : Session → Session :=
  with_hooks (fun h =>
    mkHooks (isListening h) (transcript h) (interimTranscript h) v
      (isSupported h) (error h) (copySuccess h) (isTranscribing h)
      (transcriptionMethod h) (isRecording h) (recordingTime h)
      (autoCopyEnabled h) (justStoppedRecording h)).

Definition setIsSupported (v : bool) : Session → Session :=
  with_hooks (fun h =>
    mkHooks (isListening h) (transcript h) (interimTranscript h)
      (selectedLanguage h) v (error h) (copySuccess h) (isTranscribing h)
      (transcriptionMethod h) (isRecording h) (recordingTime h)
      (autoCopyEnabled h) (justStoppedRecording h)).

Definition setError (v : string) : Session → Session :=
  with_hooks (fun h =>
    mkHooks (isListening h) (transcript h) (interimTranscript h)
      (selectedLanguage h) (isSupported h) v (copySuccess h)
      (isTranscribing h) (transcriptionMethod h) (isRecording h)
      (recordingTime h) (autoCopyEnabled h) (justStoppedRecording h)).

Definition setCopySuccess (v : bool) : Session → Session :=
  with_hooks (fun h =>
    mkHooks (isListening h) (transcript h) (interimTranscript h)
      (selectedLanguage h) (isSupported h) (error h) v (isTranscribing h)
      (transcriptionMethod h) (isRecording h) (recordingTime h)
      (autoCopyEnabled h) (justStoppedRecording h)).

Definition setIsTranscribing (v : bool) : Session → Session :=
  with_hooks (fun h =>
    mkHooks (isListening h) (transcript h) (interimTranscript h)
      (selectedLanguage h) (isSupported h) (error h) (copySuccess h) v
      (transcriptionMethod h) (isRecording h) (recordingTime h)
      (autoCopyEnabled h) (justStoppedRecording h)).

Definition setTranscriptionMethod (v : Method) : Session → Session :=
  with_hooks (fun h =>
    mkHooks (isListening h) (transcript h) (interimTranscript h)
      (selectedLanguage h) (isSupported h) (error h) (copySuccess h)
      (isTranscribing h) v (isRecording h) (recordingTime h)
      (autoCopyEnabled h) (justStoppedRecording h)).

Definition setIsRecording (v : bool) : Session → Session :=
  with_hooks (fun h =>
    mkHooks (isListening h) (transcript h) (interimTranscript h)
      (selectedLanguage h) (isSupported h) (error h) (copySuccess h)
      (isTranscribing h) (transcriptionMethod h) v (recordingTime h)
      (autoCopyEnabled h) (justStoppedRecording h)).

(** [setRecordingTime(prev => f(prev))] *)
Definition updRecordingTime (f : nat → nat) : Session → Session :=
  with_hooks (fun h =>
    mkHooks (isListening h) (transcript h) (interimTranscript h)
      (selectedLanguage h) (isSupported h) (error h) (copySuccess h)
      (isTranscribing h) (transcriptionMethod h) (isRecording h)
      (f (recordingTime h)) (autoCopyEnabled h) (justStoppedRecording h)).
Definition setRecordingTime (v : nat) : Session → Session :=
  updRecordingTime (fun _ => v).

Definition setAutoCopyEnabled (v : bool) : Session → Session :=
  with_hooks (fun h =>
    mkHooks (isListening h) (transcript h) (interimTranscript h)
      (selectedLanguage h) (isSupported h) (error h) (copySuccess h)
      (isTranscribing h) (transcriptionMethod h) (isRecording h)
      (recordingTime h) v (justStoppedRecording h)).

Definition setJustStoppedRecording (v : bool) : Session → Session :=
  with_hooks (fun h =>
    mkHooks (isListening h) (transcript h) (interimTranscript h)
      (selectedLanguage h) (isSupported h) (error h) (copySuccess h)
      (isTranscribing h) (transcriptionMethod h) (isRecording h)
      (recordingTime h) (autoCopyEnabled h) v).

Definition set_recognitionRef (v : option SpeechRecognition) :=
  with_refs (fun r =>
    mkRefs v (mediaRecorderRef r) (audioChunksRef r) (streamRef r)
      (timerRef r)).
Definition set_mediaRecorderRef (v : option nat) :=
  with_refs (fun r =>
    mkRefs (recognitionRef r) v (audioChunksRef r) (streamRef r)
      (timerRef r)).
Definition set_audioChunksRef (v : list Blob) :=
  with_refs (fun r =>
    mkRefs (recognitionRef r) (mediaRecorderRef r) v (streamRef r)
      (timerRef r)).
Definition set_streamRef (v : option nat) :=
  with_refs (fun r =>
    mkRefs (recognitionRef r) (mediaRecorderRef r) (audioChunksRef r) v
      (timerRef r)).
Definition set_timerRef (v : option nat) :=
  with_refs (fun r =>
    mkRefs (recognitionRef r) (mediaRecorderRef r) (audioChunksRef r)
      (streamRef r) v).

Definition set_mediaStreams (v : list nat) :=
  with_browser (fun b =>
    mkBrowser v (mediaRecorders b) (fetches b) (intervals b)
      (nextInterval b) (clipboard b) (console b) (autoCopyTimer b)
      (keydownClosure b)).
Definition set_mediaRecorders (v : list MediaRecorder) :=
  with_browser (fun b =>
    mkBrowser (mediaStreams b) v (fetches b) (intervals b)
      (nextInterval b) (clipboard b) (console b) (autoCopyTimer b)
      (keydownClosure b)).
Definition set_fetches (v : list PendingFetch) :=
  with_browser (fun b =>
    mkBrowser (mediaStreams b) (mediaRecorders b) v (intervals b)
      (nextInterval b) (clipboard b) (console b) (autoCopyTimer b)
      (keydownClosure b)).
Definition set_intervals (v : list nat) (next : nat) :=
  with_browser (fun b =>
    mkBrowser (mediaStreams b) (mediaRecorders b) (fetches b) v next
      (clipboard b) (console b) (autoCopyTimer b) (keydownClosure b)).
Definition set_clipboard (v : string) :=
  with_browser (fun b =>
    mkBrowser (mediaStreams b) (mediaRecorders b) (fetches b)
      (intervals b) (nextInterval b) v (console b) (autoCopyTimer b)
      (keydownClosure b)).
Definition console_write (line : string) :=
  with_browser (fun b =>
    mkBrowser (mediaStreams b) (mediaRecorders b) (fetches b)
      (intervals b) (nextInterval b) (clipboard b) (console b ++ [line])
      (autoCopyTimer b) (keydownClosure b)).
Definition set_autoCopyTimer (v : option (nat * string)) :=
  with_browser (fun b =>
    mkBrowser (mediaStreams b) (mediaRecorders b) (fetches b)
      (intervals b) (nextInterval b) (clipboard b) (console b) v
      (keydownClosure b)).
Definition set_keydownClosure (v : bool * string) :=
  with_browser (fun b =>
    mkBrowser (mediaStreams b) (mediaRecorders b) (fetches b)
      (intervals b) (nextInterval b) (clipboard b) (console b)
      (autoCopyTimer b) v).

End Setters.

(** ** Handlers that can throw: state and exception *)

Inductive Completion (A : Type) :=
| Normal (a : A) (s : Session)
| Throw (e : JsError) (s : Session).
Arguments Normal {A} a s.
Arguments Throw {A} e s.

Definition M (A : Type) : Type := Session → Completion A.

Definition ret {A} (a : A) : M A := fun s => Normal a s.

Definition bind {A B} (m : M A) (k : A → M B) : M B :=
  fun s =>
    match m s with
    | Normal a s' => k a s'
    | Throw e s' => Throw e s'
    end.

Definition throw {A} (e : JsError) : M A := fun s => Throw e s.

(** A statement that cannot throw. *)
Definition exec (f : Session → Session) : M unit := fun s => Normal () (f s).

(** [try { body } catch (e) { handler e }] *)
Definition try_catch {A} (body : M A) (handler : JsError → M A) : M A :=
  fun s =>
    match body s with
    | Normal a s' => Normal a s'
    | Throw e s' => handler e s'
    end.

(** [try { body } finally { fin }]: [fin] runs on both exits; a throw of
    [body] is re-thrown after it unless [fin] throws itself. *)
Definition try_finally {A} (body : M A) (fin : M unit) : M A :=
  fun s =>
    match body s with
    | Normal a s' =>
        match fin s' with
        | Normal _ s'' => Normal a s''
        | Throw e s'' => Throw e s''
        end
    | Throw e s' =>
        match fin s' with
        | Normal _ s'' => Throw e s''
        | Throw e' s'' => Throw e' s''
        end
    end.

(** [bind] and [ret] behind stdpp's monad notations: [x ← m; k] and
    [m;; k]. *)
Global Instance M_ret : MRet M := @ret.
Global Instance M_bind : MBind M := fun A B k m => bind m k.

(** The session a completion ends in. *)
Definition final {A} (c : Completion A) : Session :=
  match c with
  | Normal _ s => s
  | Throw _ s => s
  end.


(** ** Browser operations used by the handlers *)

(** [await navigator.mediaDevices.getUserMedia(...)]: a new live stream,
    or the rejection. *)
Definition getUserMedia (o : UserMediaOutcome) : M nat :=
  fun s =>
    match o with
    | MediaGranted =>
        Normal (length (mediaStreams (browser s)))
               (set_mediaStreams (mediaStreams (browser s) ++ [0]) s)
    | MediaDenied e => Throw e s
    end.

(** [stream.getTracks().forEach(track => track.stop())] *)
Definition stop_tracks (stream : nat) (s : Session) : Session :=
  set_mediaStreams (alter S stream (mediaStreams (browser s))) s.

(** [recognitionRef.current.lang = language] *)
Definition recognition_set_lang (language : string) : M unit :=
  fun s =>
    match recognitionRef (refs s) with
    | Some r =>
        Normal () (set_recognitionRef
          (Some (mkRecognition (continuous r) (interimResults r) language
                               (started r))) s)
    | None => Throw (mkJsError "Cannot set properties of null") s
    end.

(** [recognitionRef.current.start()]: throws when the recognizer has
    already been started. *)
Definition recognition_start : M unit :=
  fun s =>
    match recognitionRef (refs s) with
    | Some r =>
        if started r
        then Throw (mkJsError "recognition has already started") s
        else Normal () (set_recognitionRef
               (Some (mkRecognition (continuous r) (interimResults r)
                                    (lang r) true)) s)
    | None => Throw (mkJsError "Cannot read properties of null") s
    end.

(** [await navigator.clipboard.writeText(text)] *)
Definition writeText (text : string) (c : ClipboardOutcome) : M unit :=
  fun s =>
    match c with
    | ClipboardWritten => Normal () (set_clipboard text s)
    | ClipboardFailed e => Throw e s
    end.

(** [recognition.stop()] asks the recognizer to finish; nothing changes
    until the browser delivers [end]. *)
Definition recognition_stop (s : Session) : Session := s.

(** [new MediaRecorder(stream, { mimeType })]: throws when the type is not
    supported. *)
Definition new_MediaRecorder (isTypeSupported : string → bool)
    (stream : nat) (mimeType : string) : M nat :=
  fun s =>
    if isTypeSupported mimeType
    then Normal (length (mediaRecorders (browser s)))
           (set_mediaRecorders
              (mediaRecorders (browser s)
                 ++ [mkRecorder stream mimeType inactive false]) s)
    else Throw (mkJsError "mimeType is not supported") s.

Definition set_rec_state (st : RecorderState) (r : MediaRecorder) :=
  mkRecorder (rec_stream r) (rec_mimeType r) st (stop_fired r).

(** [mediaRecorder.start()] and [mediaRecorder.stop()] *)
Definition recorder_start (rid : nat) (s : Session) : Session :=
  set_mediaRecorders
    (alter (set_rec_state recording) rid (mediaRecorders (browser s))) s.
Definition recorder_stop (rid : nat) (s : Session) : Session :=
  set_mediaRecorders
    (alter (set_rec_state inactive) rid (mediaRecorders (browser s))) s.

(** ** The handlers of [SpeechToTextApp] *)

Definition startTimer (s : Session) : Session :=
  let s := setRecordingTime 0 s in
  let id := nextInterval (browser s) in
  set_timerRef (Some id)
    (set_intervals (intervals (browser s) ++ [id]) (S id) s).

(** Interval identifiers are positive, so [if (timerRef.current)] tests
    for a stored identifier. *)
Definition stopTimer (s : Session) : Session :=
  match timerRef (refs s) with
  | Some id =>
      set_timerRef None
        (set_intervals (filter (fun i => i ≠ id) (intervals (browser s)))
                       (nextInterval (browser s)) s)
  | None => s
  end.

(** [recognition.onstart] *)
Definition onstart (s : Session) : Session :=
  setError "" (setIsListening true s).

(** [recognition.onend] *)
Definition onend (s : Session) : Session :=
  setJustStoppedRecording true
    (stopTimer (setInterimTranscript "" (setIsListening false s))).

(** The [for] loop of [recognition.onresult], from index [i]; [fuel]
    bounds the number of iterations and [results.length] is enough. *)
Fixpoint onresult_loop (rs : list SpeechRecognitionResult) (fuel i : nat)
    (finalTranscript interimText : string) : string * string :=
  match fuel with
  | 0 => (finalTranscript, interimText)
  | S fuel' =>
      match rs !! i with
      | None => (finalTranscript, interimText)
      | Some result =>
          if isFinal result
          then onresult_loop rs fuel' (S i)
                 (finalTranscript +:+ transcript0 result) interimText
          else onresult_loop rs fuel' (S i)
                 finalTranscript (interimText +:+ transcript0 result)
      end
  end.

(** [recognition.onresult] *)
Definition onresult (event : SpeechRecognitionEvent) (s : Session) : Session :=
  let '(finalTranscript, interimText) :=
    onresult_loop (results event) (length (results event))
                  (resultIndex event) "" "" in
  let s :=
    if Js.truthy finalTranscript
    then updTranscript (fun prev => prev +:+ finalTranscript +:+ " ") s
    else s in
  setInterimTranscript interimText s.

(** [recognition.onerror] *)
Definition onerror (code : string) (s : Session) : Session :=
  let s := setIsListening false s in
  if Js.seq code "not-allowed" then
    setError "Microphone access denied. Please allow microphone access and try again." s
  else if Js.seq code "no-speech" then
    setError "No speech detected. Please try speaking again." s
  else if Js.seq code "network" then
    setError "Web Speech is unavailable in this browser or region. Switched to OpenAI transcription."
      (setTranscriptionMethod aiml (setIsSupported false s))
  else if Js.seq code "service-not-allowed" then
    setError "Web Speech is not allowed. Switched to OpenAI transcription."
      (setTranscriptionMethod aiml (setIsSupported false s))
  else
    setError ("Speech recognition error: " +:+ code
                +:+ ". Try using OpenAI transcription instead.") s.

(** The synchronous part of the [selectedLanguage] effect: capability
    probe, then a new recognizer for [recognitionRef]. *)
Definition speechEffect (p : ProbeOutcome) (s : Session) : Session :=
  match p with
  | ProbeNoConstructor =>
      setError "Web Speech is not supported in this browser. Using OpenAI transcription instead."
        (setTranscriptionMethod aiml (setIsSupported false s))
  | ProbeStartThrows =>
      setError "Web Speech is not available. Using OpenAI transcription instead."
        (setTranscriptionMethod aiml (setIsSupported false s))
  | ProbeRunning =>
      set_recognitionRef
        (Some (mkRecognition true true (selectedLanguage (hooks s)) false)) s
  end.

(** [handleTestError], the probe's [error] listener *)
Definition handleTestError (code : string) (s : Session) : Session :=
  if Js.seq code "network" || Js.seq code "service-not-allowed"
  then setError "Web Speech is not available in this browser or region. Switched to OpenAI transcription."
         (setTranscriptionMethod aiml (setIsSupported false s))
  else s.

(** The probe's 3000 ms timeout callback *)
Definition testTimeout (s : Session) : Session :=
  setError "Web Speech test failed. Switched to OpenAI transcription."
    (setTranscriptionMethod aiml (setIsSupported false s)).

(** [startListening], with the [isSupported] and [selectedLanguage] of the
    render whose closure is called. *)
Definition startListening (isSupported_ : bool) (selectedLanguage_ : string)
    (um : UserMediaOutcome) : M unit :=
  fun s =>
    if negb (bool_decide (is_Some (recognitionRef (refs s))))
       || negb isSupported_
    then Normal () s
    else
      try_catch
        (getUserMedia um;;
         exec (setError "");;
         recognition_set_lang selectedLanguage_;;
         exec startTimer;;
         recognition_start)
        (fun _ => exec (setError
           "Microphone access denied. Please allow microphone access and try again."))
        s.

Definition stopListening (s : Session) : Session :=
  let s :=
    match recognitionRef (refs s) with
    | Some _ => recognition_stop s
    | None => s
    end in
  stopTimer s.

Definition clearTranscript (s : Session) : Session :=
  setInterimTranscript "" (setTranscript "" s).

(** [copyToClipboard], with the [transcript] of the render whose closure
    is called. The 2000 ms timeout it sets is the event
    [CopySuccessTimeout] below. *)
Definition copyToClipboard (transcript_ : string) (c : ClipboardOutcome)
    : M unit :=
  try_catch
    (writeText transcript_ c;;
     exec (setCopySuccess true))
    (fun err => exec (console_write
       ("Failed to copy to clipboard: " +:+ message err))).

(** *** Batch recording *)

Definition supportedTypes : list string :=
  ["audio/webm;codecs=opus"; "audio/webm"; "audio/mp4"; "audio/wav"].

(** The loop over [supportedTypes]: the first supported type, else the
    initial value of [mimeType]. *)
Fixpoint pickMimeType (isTypeSupported : string → bool) (types : list string)
    (mimeType : string) : string :=
  match types with
  | [] => mimeType
  | type :: rest =>
      if isTypeSupported type then type
      else pickMimeType isTypeSupported rest mimeType
  end.

(** [startWhisperRecording]. The recorder's [ondataavailable] and [onstop]
    are the handlers [ondataavailable] and [onstop_*] below; what [onstop]
    closes over is kept in the recorder's entry. *)
Definition startWhisperRecording (um : UserMediaOutcome)
    (isTypeSupported : string → bool) : M unit :=
  try_catch
    (exec (setError "");;
     stream ← getUserMedia um;
     exec (set_streamRef (Some stream));;
     let mimeType :=
       pickMimeType isTypeSupported supportedTypes "audio/webm;codecs=opus" in
     exec (console_write ("Using MIME type: " +:+ mimeType));;
     mediaRecorder ← new_MediaRecorder isTypeSupported stream mimeType;
     exec (set_mediaRecorderRef (Some mediaRecorder));;
     exec (set_audioChunksRef []);;
     exec (recorder_start mediaRecorder);;
     exec (setIsRecording true);;
     exec startTimer)
    (fun error_ =>
       exec (setError ("Error accessing microphone: " +:+ message error_));;
       exec (console_write ("Microphone error: " +:+ message error_))).

(** [mediaRecorder.ondataavailable] *)
Definition ondataavailable (data : Blob) (s : Session) : Session :=
  if 0 <? blob_size data
  then set_audioChunksRef (audioChunksRef (refs s) ++ [data]) s
  else s.

Definition stopWhisperRecording (s : Session) : Session :=
  let s :=
    match mediaRecorderRef (refs s) with
    | Some rid =>
        match mediaRecorders (browser s) !! rid with
        | Some r =>
            match rec_state r with
            | recording => recorder_stop rid s
            | inactive => s
            end
        | None => s
        end
    | None => s
    end in
  stopTimer (setIsRecording false s).

(** *** Transcription *)

Definition extension_of (type : string) : string :=
  if Js.includes type "mp4" then "mp4"
  else if Js.includes type "wav" then "wav"
  else if Js.includes type "ogg" then "ogg"
  else "webm".

(** [transcribeWithWhisper], the [try] block up to [await fetch(...)]:
    the result is the request body handed to [fetch]. *)
Definition transcribe_before_await (audioBlob : Blob) : M FormData :=
  exec (setIsTranscribing true);;
  exec (setError "");;
  ret (mkFormData audioBlob
         ("recording." +:+ extension_of (blob_type audioBlob))).

(** The [TypeError] of reading [property] of [null]. *)
Definition null_property_error (property : string) : JsError :=
  mkJsError ("Cannot read properties of null (reading '" +:+ property
               +:+ "')").

(** What React finds when it renders the state updates a handler queued:
    every updater returns, or one throws. *)
Inductive Render :=
| Renders
| RenderThrows (e : JsError).

(** [transcribeWithWhisper], the [try] block after [await fetch(...)].
    [errorData.error] is read inside the [try] block. [result.text] is
    read by the updater passed to [setTranscript], which React calls
    while rendering: when [result] is [null] the call of [setTranscript]
    returns, nothing is thrown inside the [try] block, and the updater
    throws in the render. *)
Definition transcribe_after_await (o : FetchOutcome) : M Render :=
  match o with
  | FetchRejected e => throw e
  | FetchResponse ok body =>
      if negb ok then
        match body with
        | JsonInvalid e => throw e
        | JsonNull => throw (null_property_error "error")
        | JsonObject _ err =>
            throw (mkJsError (Js.or (default "" err) "Error in transcription"))
        end
      else
        match body with
        | JsonInvalid e => throw e
        | JsonNull => mret (RenderThrows (null_property_error "text"))
        | JsonObject text _ =>
            exec (updTranscript (fun prev =>
              prev +:+ (if Js.truthy prev then Js.LFLF else "")
                   +:+ default Js.undefined_str text));;
            mret Renders
        end
  end.

(** The [catch] and the [finally] block of [transcribeWithWhisper]. *)
Definition transcribe_catch (error_ : JsError) : M Render :=
  exec (setError ("Transcription error: " +:+ message error_));;
  exec (console_write ("Transcription error: " +:+ message error_));;
  mret Renders.

Definition transcribe_finally : M unit :=
  exec (setIsTranscribing false);;
  exec (setJustStoppedRecording true).

(** [transcribeWithWhisper] as a whole, given how its [fetch] ends. *)
Definition transcribeWithWhisper (audioBlob : Blob) (o : FetchOutcome)
    : M Render :=
  try_finally
    (try_catch
       (transcribe_before_await audioBlob;; transcribe_after_await o)
       transcribe_catch)
    transcribe_finally.

(** The same function resumed after the [await]. *)
Definition transcribe_resume (o : FetchOutcome) : M Render :=
  try_finally (try_catch (transcribe_after_await o) transcribe_catch)
              transcribe_finally.

(** [mediaRecorder.onstop] of a recorder that captured [stream] and
    [mimeType], as a whole. *)
Definition onstop (stream : nat) (mimeType : string) (o : FetchOutcome)
    : M Render :=
  r ← (fun s =>
         transcribeWithWhisper
           (new_Blob (audioChunksRef (refs s)) mimeType) o s);
  exec (stop_tracks stream);;
  exec (set_streamRef None);;
  mret r.

(** The session once React has rendered what a handler queued. When an
    updater throws, none of the state updates of the handler is
    committed: the hooks are those of [old], the session the handler
    started in. *)
Definition rendered (old : Session) (c : Completion Render) : Session :=
  match c with
  | Normal Renders s' => s'
  | Normal (RenderThrows _) s' => with_hooks (fun _ => hooks old) s'
  | Throw _ s' => s'
  end.

Definition thrown_in_render (c : Completion Render) : option JsError :=
  match c with
  | Normal (RenderThrows e) _ => Some e
  | _ => None
  end.

(** [onstop] of recorder [rid] up to the [await] inside
    [transcribeWithWhisper]: the call in flight is entered in [fetches].
    The browser delivers [stop] once, to a recorder that has left the
    recording state; here only [mediaRecorder.stop()] makes it leave
    (tracks that end on their own are not modelled). *)
Definition onstop_begin (rid : nat) (s : Session) : Session :=
  match mediaRecorders (browser s) !! rid with
  | Some r =>
      match rec_state r with
      | recording => s
      | inactive =>
          if stop_fired r then s
          else
            let s := set_mediaRecorders
                       (<[rid := mkRecorder (rec_stream r) (rec_mimeType r)
                                            inactive true]>
                          (mediaRecorders (browser s))) s in
            match transcribe_before_await
                    (new_Blob (audioChunksRef (refs s)) (rec_mimeType r)) s
            with
            | Normal body s' =>
                set_fetches
                  (fetches (browser s')
                     ++ [mkPending body (rec_stream r) false]) s'
            | Throw _ s' => s'
            end
      end
  | None => s
  end.

(** [onstop] from the moment call [q] settles: the rest of
    [transcribeWithWhisper], then the cleanup. *)
Definition onstop_settle (q : nat) (pf : PendingFetch) (o : FetchOutcome)
    (s : Session) : Completion Render :=
  let s := set_fetches
             (<[q := mkPending (pf_body pf) (pf_stream pf) true]>
                (fetches (browser s))) s in
  (r ← transcribe_resume o;
   exec (stop_tracks (pf_stream pf));;
   exec (set_streamRef None);;
   mret r) s.

Definition onstop_resume (q : nat) (o : FetchOutcome) (s : Session) : Session :=
  match fetches (browser s) !! q with
  | Some pf =>
      if pf_settled pf then s
      else rendered s (onstop_settle q pf o s)
  | None => s
  end.

(** *** Controls *)

(** What the toggle button's [onClick] and the Space key call. *)
Definition toggleRecording (isSupported_ : bool) (selectedLanguage_ : string)
    (um : UserMediaOutcome) (isTypeSupported : string → bool)
    (s : Session) : Session :=
  match transcriptionMethod (hooks s) with
  | web_api =>
      if isListening (hooks s) then stopListening s
      else final (startListening isSupported_ selectedLanguage_ um s)
  | aiml =>
      if isRecording (hooks s) then stopWhisperRecording s
      else final (startWhisperRecording um isTypeSupported s)
  end.

(** [handleKeyDown]. The three tests read the values of the render in
    which the listener was registered: [transcript], [isListening],
    [isRecording], [isTranscribing] and [transcriptionMethod] are
    dependencies of the effect and so current; [isSupported] and
    [selectedLanguage] are those of [keydownClosure]. *)
Definition handleKeyDown (event : KeyboardEvent) (um : UserMediaOutcome)
    (isTypeSupported : string → bool) (c : ClipboardOutcome)
    (s : Session) : Session :=
  let h := hooks s in
  let s1 :=
    if ctrlKey event && Js.seq (key event) "c" && Js.truthy (transcript h)
    then final (copyToClipboard (transcript h) c s)
    else s in
  let s2 :=
    if ctrlKey event && Js.seq (key event) "d" && Js.truthy (transcript h)
    then clearTranscript s1
    else s1 in
  if Js.seq (code event) "Space" && negb (isTranscribing h)
  then
    match transcriptionMethod h with
    | web_api =>
        if isListening h then stopListening s2
        else final (startListening (keydownClosure (browser s)).1
                      (keydownClosure (browser s)).2 um s2)
    | aiml =>
        if isRecording h then stopWhisperRecording s2
        else final (startWhisperRecording um isTypeSupported s2)
    end
  else s2.

(** The transcript area: what it shows, and its [onChange]. *)
Definition textareaValue (s : Session) : string :=
  transcript (hooks s) +:+ interimTranscript (hooks s).

Definition textarea_onChange (value : string) (s : Session) : Session :=
  setTranscript value s.

(** An edit typed into the transcript area. *)
Inductive Edit :=
| InsertText (pos : nat) (txt : string)
| DeleteText (pos len : nat).

Definition applyEdit (e : Edit) (shown : string) : string :=
  match e with
  | InsertText pos txt => Js.splice_in pos txt shown
  | DeleteText pos len => Js.splice_out pos len shown
  end.

(** ** Effects that re-run after a render *)

(** Dependency lists of the keyboard effect and of the auto-copy effect. *)
Definition keydown_deps (s : Session) : string * bool * bool * bool * Method :=
  let h := hooks s in
  (transcript h, isListening h, isRecording h, isTranscribing h,
   transcriptionMethod h).

Definition autoCopy_deps (s : Session) : bool * bool * string :=
  let h := hooks s in
  (justStoppedRecording h, autoCopyEnabled h, transcript h).

(** One run of the auto-copy effect: the cleanup of the previous run
    ([clearTimeout]), then the body. The timeout keeps the delay and the
    [transcript] that the [copyToClipboard] of this render closed over. *)
Definition autoCopyEffect (s : Session) : Session :=
  let s := set_autoCopyTimer None s in
  let h := hooks s in
  if justStoppedRecording h && autoCopyEnabled h
     && Js.truthy (Js.trim (transcript h))
  then set_autoCopyTimer (Some (500, transcript h)) s
  else if justStoppedRecording h
  then setJustStoppedRecording false s
  else s.

(** After a handler took the session from [old] to [new]: each effect
    whose dependencies changed runs; the auto-copy effect runs once more
    when its own [setJustStoppedRecording(false)] changed them again. *)
Definition render_effects (old new : Session) : Session :=
  let new :=
    if decide (keydown_deps old = keydown_deps new) then new
    else set_keydownClosure
           (isSupported (hooks new), selectedLanguage (hooks new)) new in
  if decide (autoCopy_deps old = autoCopy_deps new) then new
  else
    let s1 := autoCopyEffect new in
    if decide (autoCopy_deps new = autoCopy_deps s1) then s1
    else autoCopyEffect s1.

(** ** Events *)

(** Everything that can call into the component: browser callbacks and
    user actions, each with what the browser answers during the handler.
    Callbacks of the recognizer, of the probe and of timers are accepted
    at any time. *)
Inductive Event :=
| ProbeError (code : string)
| ProbeTimeout
| RecognitionStart
| RecognitionEnd
| RecognitionResult (event : SpeechRecognitionEvent)
| RecognitionError (code : string)
| KeyDown (event : KeyboardEvent) (um : UserMediaOutcome)
          (isTypeSupported : string → bool) (c : ClipboardOutcome)
| ClickToggle (um : UserMediaOutcome) (isTypeSupported : string → bool)
| ClickCopy (c : ClipboardOutcome)
| ClickClear
| SelectMethod (m : Method)
| SelectLanguage (language : string) (p : ProbeOutcome)
| TextareaInput (e : Edit)
| AutoCopyChecked (checked : bool)
| TimerTick
| AutoCopyTimeout (c : ClipboardOutcome)
| CopySuccessTimeout
| RecorderData (data : Blob)
| RecorderStop (rid : nat)
| FetchSettled (q : nat) (o : FetchOutcome).

(** The [end] event: the recognizer is no longer started. *)
Definition recognizer_ended (s : Session) : Session :=
  match recognitionRef (refs s) with
  | Some r =>
      set_recognitionRef
        (Some (mkRecognition (continuous r) (interimResults r) (lang r) false)) s
  | None => s
  end.

(** The handler an event runs, with the gating written in the JSX:
    the toggle button is [disabled={isTranscribing}], Copy and Clear are
    [disabled={!transcript}], the Web Speech radio is
    [disabled={!isSupported}], and the language [Select] is rendered only
    when [transcriptionMethod === 'web-api']. *)
Definition handle (ev : Event) (s : Session) : Session :=
  let h := hooks s in
  match ev with
  | ProbeError code => handleTestError code s
  | ProbeTimeout => testTimeout s
  | RecognitionStart => onstart s
  | RecognitionEnd => onend (recognizer_ended s)
  | RecognitionResult event => onresult event s
  | RecognitionError code => onerror code s
  | KeyDown event um isTypeSupported c =>
      handleKeyDown event um isTypeSupported c s
  | ClickToggle um isTypeSupported =>
      if isTranscribing h then s
      else toggleRecording (isSupported h) (selectedLanguage h)
             um isTypeSupported s
  | ClickCopy c =>
      if Js.truthy (transcript h)
      then final (copyToClipboard (transcript h) c s)
      else s
  | ClickClear =>
      if Js.truthy (transcript h) then clearTranscript s else s
  | SelectMethod aiml => setTranscriptionMethod aiml s
  | SelectMethod web_api =>
      if isSupported h then setTranscriptionMethod web_api s else s
  | SelectLanguage language p =>
      match transcriptionMethod h with
      | web_api =>
          if Js.seq language (selectedLanguage h) then s
          else
            let s := setSelectedLanguage language s in
            let s := match recognitionRef (refs s) with
                     | Some _ => recognition_stop s
                     | None => s
                     end in
            speechEffect p s
      | aiml => s
      end
  | TextareaInput e => textarea_onChange (applyEdit e (textareaValue s)) s
  | AutoCopyChecked checked => setAutoCopyEnabled checked s
  | TimerTick =>
      match intervals (browser s) with
      | [] => s
      | _ :: _ => updRecordingTime (fun prev => prev + 1) s
      end
  | AutoCopyTimeout c =>
      match autoCopyTimer (browser s) with
      | Some (_, transcript_) =>
          setJustStoppedRecording false
            (final (copyToClipboard transcript_ c (set_autoCopyTimer None s)))
      | None => s
      end
  | CopySuccessTimeout => setCopySuccess false s
  | RecorderData data => ondataavailable data s
  | RecorderStop rid => onstop_begin rid s
  | FetchSettled q o => onstop_resume q o s
  end.

Definition step (ev : Event) (s : Session) : Session :=
  render_effects s (handle ev s).

Fixpoint run (evs : list Event) (s : Session) : Session :=
  match evs with
  | [] => s
  | ev :: evs' => run evs' (step ev s)
  end.

(** The error React throws while rendering what the handler of [ev]
    queued. The page has no error boundary: React then unmounts the
    component. Only the updater of [transcribeWithWhisper] can throw. *)
Definition render_error (ev : Event) (s : Session) : option JsError :=
  match ev with
  | FetchSettled q o =>
      match fetches (browser s) !! q with
      | Some pf =>
          if pf_settled pf then None
          else thrown_in_render (onstop_settle q pf o s)
      | None => None
      end
  | _ => None
  end.

(** Every render of the run succeeds: the component stays mounted. *)
Fixpoint renders (evs : list Event) (s : Session) : bool :=
  match evs with
  | [] => true
  | ev :: evs' =>
      match render_error ev s with
      | Some _ => false
      | None => renders evs' (step ev s)
      end
  end.

(** The [useState] and [useRef] initial values, with the keyboard
    listener of the first render registered. *)
Definition initial : Session :=
  mkSession
    (mkHooks false "" "" "en-US" true "" false false web_api false 0 false
       false)
    (mkRefs None None [] None None)
    (mkBrowser [] [] [] [] 1 "" [] None (true, "en-US")).

(** The session once the effects of the first render have run. *)
Definition mount (p : ProbeOutcome) : Session :=
  render_effects initial (speechEffect p initial).

Definition reachable (s : Session) : Prop :=
  ∃ p evs, s = run evs (mount p).

(** ** The session status of the specification

    Read off the flags as the status badge does: listening or recording
    is a capture in progress, transcribing is processing. *)
Inductive Status := Idle | Capturing | Processing.

Definition status (s : Session) : Status :=
  let h := hooks s in
  if isListening h || isRecording h then Capturing
  else if isTranscribing h then Processing
  else Idle.

(** Captures in progress: the recognizer when started, the media
    recorders that are recording. *)
Definition recognizer_open (s : Session) : nat :=
  match recognitionRef (refs s) with
  | Some r => if started r then 1 else 0
  | None => 0
  end.

Definition recorders_recording (s : Session) : nat :=
  length (filter (fun r => rec_state r = recording)
                 (mediaRecorders (browser s))).

Definition active_captures (s : Session) : nat :=
  recognizer_open s + recorders_recording s.

(** ** The recording time shown in the badge *)

(** [n.toString()] of a non-negative integer: its decimal digits. *)
Definition toString (n : nat) : string :=
  DecimalString.NilEmpty.string_of_uint (Nat.to_uint n).

Fixpoint repeat_char (n : nat) (c : ascii) : string :=
  match n with
  | 0 => EmptyString
  | S n' => String c (repeat_char n' c)
  end.

(** [s.padStart(targetLength, c)] for a one-character fill: nothing is
    cut off a string that is already long enough. *)
Definition padStart (targetLength : nat) (c : ascii) (s : string) : string :=
  repeat_char (targetLength - String.length s) c +:+ s.

(** [formatTime] *)
Definition formatTime (seconds : nat) : string :=
  let mins := seconds / 60 in
  let secs := seconds mod 60 in
  padStart 2 "0" (toString mins) +:+ ":" +:+ padStart 2 "0" (toString secs).

(** ** The transcription endpoint: [src/app/api/transcribe/route.ts] *)

Module Route.

(** A [File] of the request: name, MIME type, size in bytes. *)
Record File := mkFile { name : string; type : string; size : nat }.

(** What [formData.get('audio')] returns besides [null]: a file, or the
    text of a field that is not a file. *)
Inductive FormDataEntryValue :=
| EntryFile (f : File)
| EntryString (v : string).

(** The error objects the [catch] block reads: [error.message],
    [error.response?.status] and [error.response?.data?.message]. *)
Record ErrorResponse := mkErrorResponse {
  response_status : option nat;
  response_data_message : option string
}.

Record ApiError := mkApiError {
  error_message : string;
  error_response : option ErrorResponse
}.

(** How [await request.formData()] ends. *)
Inductive FormDataOutcome :=
| FormParsed (audio : option FormDataEntryValue)
| FormRejected (e : ApiError).

(** The verbose transcription of OpenAI; [segments] and [words] are kept
    as their JSON text. *)
Record Transcription := mkTranscription {
  text : string;
  language : string;
  duration : string;
  segments : string;
  words : string
}.

(** How [await openai.audio.transcriptions.create(...)] ends. *)
Inductive OpenAIOutcome :=
| Transcribed (t : Transcription)
| OpenAIRejected (e : ApiError).

(** The JSON bodies the handler sends. *)
Inductive Body :=
| BodyTranscription (t : Transcription)
| BodyError (error : string) (details : option string) (status : option nat).

Record Response := mkResponse { status : nat; body : Body }.

(** What one request leaves behind: the response, the files sent to
    OpenAI, and the first argument of every console call. *)
Record Handled := mkHandled {
  response : Response;
  sent : list File;
  logged : list string
}.

(** The size limit of the handler: [25 * 1024 * 1024]. *)
Definition max_size : nat := 25 * 1024 * 1024.

(** [a || b] where [a] may be [undefined]. *)
Definition or_else (a : option string) (b : string) : string :=
  match a with
  | Some v => if Js.truthy v then v else b
  | None => b
  end.

(** The [catch] block. *)
Definition on_error (e : ApiError) (sent_ : list File) (logged_ : list string)
    : Handled :=
  let logged_ :=
    logged_ ++ ["=== OpenAI Whisper API Error ==="; "Error message:";
                "Error stack:"] in
  let logged_ :=
    match error_response e with
    | Some _ =>
        logged_ ++ ["Response status:"; "Response data:"; "Response headers:"]
    | None => logged_
    end in
  mkHandled
    (mkResponse 500
       (BodyError "Failed to transcribe audio with OpenAI Whisper"
          (Some (or_else (error_response e ≫= response_data_message)
                         (error_message e)))
          (error_response e ≫= response_status)))
    sent_ logged_.

(** What the handler reads of the entry: whether it is truthy, its
    [size] where it has one, and the [File] made from it by
    [new File([audioFile], audioFile.name, { type: audioFile.type })]. *)
Definition entry_truthy (v : FormDataEntryValue) : bool :=
  match v with
  | EntryFile _ => true
  | EntryString t => Js.truthy t
  end.

Definition entry_size (v : FormDataEntryValue) : option nat :=
  match v with
  | EntryFile f => Some (size f)
  | EntryString _ => None
  end.

(** The number of bytes of [t] in UTF-8: one for a code unit below 128,
    two for one from 128 to 255. *)
Fixpoint utf8_length (t : string) : nat :=
  match t with
  | EmptyString => 0
  | String c t' => (if nat_of_ascii c <? 128 then 1 else 2) + utf8_length t'
  end.

Definition entry_file (v : FormDataEntryValue) : File :=
  match v with
  | EntryFile f => mkFile (name f) (type f) (size f)
  | EntryString t => mkFile Js.undefined_str "" (utf8_length t)
  end.

(** [POST] *)
Definition POST (form : FormDataOutcome) (openai : File → OpenAIOutcome)
    : Handled :=
  let logged_ := ["=== OpenAI Whisper Transcribe API called ==="] in
  match form with
  | FormRejected e => on_error e [] logged_
  | FormParsed audio =>
      match audio with
      | None =>
          mkHandled (mkResponse 400 (BodyError "No audio file provided" None None))
                    [] (logged_ ++ ["No audio file provided"])
      | Some audioFile =>
          if negb (entry_truthy audioFile) then
            mkHandled
              (mkResponse 400 (BodyError "No audio file provided" None None))
              [] (logged_ ++ ["No audio file provided"])
          else
            let logged_ := logged_ ++ ["Received audio file:"] in
            if match entry_size audioFile with
               | Some n => max_size <? n
               | None => false
               end
            then
              mkHandled
                (mkResponse 400
                   (BodyError "File too large (max 25MB)" None None))
                [] (logged_ ++ ["File too large:"])
            else
              let logged_ := logged_ ++ ["Sending to OpenAI Whisper API..."] in
              let file := entry_file audioFile in
              match openai file with
              | Transcribed transcription =>
                  mkHandled (mkResponse 200 (BodyTranscription transcription))
                            [file]
                            (logged_ ++ ["OpenAI Whisper API response:"])
              | OpenAIRejected e => on_error e [file] logged_
              end
      end
  end.

End Route.

(** ** The page and the endpoint together *)

(** The file the endpoint finds under [audio] in a body built by
    [transcribeWithWhisper]: [formData.append('audio', audioBlob, name)]
    sends the blob as a file of that name. *)
Definition uploaded_file (body : FormData) : Route.File :=
  Route.mkFile (form_filename body) (blob_type (form_audio body))
               (blob_size (form_audio body)).

Definition upload (body : FormData) : Route.FormDataOutcome :=
  Route.FormParsed (Some (Route.EntryFile (uploaded_file body))).

(** What [fetch] and [response.json()] give the page for a response of
    the endpoint: [response.ok] is a status from 200 to 299, and of the
    JSON body the page reads [text] and [error]. *)
Definition json_of (b : Route.Body) : JsonBody :=
  match b with
  | Route.BodyTranscription t => JsonObject (Some (Route.text t)) None
  | Route.BodyError e _ _ => JsonObject None (Some e)
  end.

Definition fetch_of (r : Route.Response) : FetchOutcome :=
  FetchResponse ((200 <=? Route.status r) && (Route.status r <=? 299))
                (json_of (Route.body r)).

(** The call of the page answered by the endpoint, given what OpenAI
    answers the endpoint. *)
Definition roundtrip (body : FormData)
    (openai : Route.File → Route.OpenAIOutcome) : FetchOutcome :=
  fetch_of (Route.response (Route.POST (upload body) openai)).

(** ** Notions used to state the properties *)

Definition join (l : list string) : string := foldr String.append "" l.

(** The segments of a batch: the results from [resultIndex] on. *)
Definition batch (event : SpeechRecognitionEvent) : list SpeechRecognitionResult :=
  drop (resultIndex event) (results event).

Definition finals (rs : list SpeechRecognitionResult) : list string :=
  transcript0 <$> filter (fun r => isFinal r = true) rs.

Definition interims (rs : list SpeechRecognitionResult) : list string :=
  transcript0 <$> filter (fun r => isFinal r = false) rs.

(** The result semantics in the words of the specification: every
    finalized segment of the batch followed by one space, appended to the
    transcript. *)
Definition spec_transcript_after (event : SpeechRecognitionEvent)
    (s : Session) : string :=
  transcript (hooks s)
    +:+ join ((fun seg => seg +:+ " ") <$> finals (batch event)).

(** The Ctrl+D key event. *)
Definition ctrl_d : KeyboardEvent := mkKey true "d" "KeyD".

(** Live recognition has been lost: the Web Speech radio is disabled and
    Batch is the active backend. *)
Definition capability_lost (s : Session) : Prop :=
  isSupported (hooks s) = false ∧ transcriptionMethod (hooks s) = aiml.

(** A capture completion: the events whose handler calls
    [setJustStoppedRecording(true)], that is the recognizer's [end] and a
    transcription call that settles. *)
Definition is_completion (ev : Event) (s : Session) : bool :=
  match ev with
  | RecognitionEnd => true
  | FetchSettled q _ =>
      match fetches (browser s) !! q with
      | Some pf => negb (pf_settled pf)
      | None => false
      end
  | _ => false
  end.


(** An auto-copy: the pending timeout of the auto-copy effect fires and
    calls [copyToClipboard]. *)
Definition is_auto_copy (ev : Event) (s : Session) : bool :=
  match ev with
  | AutoCopyTimeout _ => bool_decide (is_Some (autoCopyTimer (browser s)))
  | _ => false
  end.

(** How often [f] holds of the events of a run, each taken with the
    session it is delivered in. *)
Fixpoint count_events (f : Event → Session → bool) (evs : list Event)
    (s : Session) : nat :=
  match evs with
  | [] => 0
  | ev :: evs' => (if f ev s then 1 else 0) + count_events f evs' (step ev s)
  end.

(** What holds of the auto-copy effect between two events: while
    [justStoppedRecording] is set, auto-copy is enabled, the transcript is
    not blank and the 500 ms timeout is pending with the current
    transcript; otherwise no timeout is pending. *)
Definition effect_settled (s : Session) : Prop :=
  if justStoppedRecording (hooks s)
  then autoCopyEnabled (hooks s) = true
       ∧ Js.truthy (Js.trim (transcript (hooks s))) = true
       ∧ autoCopyTimer (browser s) = Some (500, transcript (hooks s))
  else autoCopyTimer (browser s) = None.

(** [m] keeps relation [R] between the session it starts in and the one
    it ends in, whether it returns or throws. *)
Definition preserves (R : relation Session) {A} (m : M A) : Prop :=
  ∀ s, R s (final (m s)).

(** The cells that the recording controls (toggle, copy, clear) leave
    alone. *)
Definition quiet (s s' : Session) : Prop :=
  isSupported (hooks s') = isSupported (hooks s)
  ∧ transcriptionMethod (hooks s') = transcriptionMethod (hooks s)
  ∧ isTranscribing (hooks s') = isTranscribing (hooks s)
  ∧ autoCopyEnabled (hooks s') = autoCopyEnabled (hooks s)
  ∧ justStoppedRecording (hooks s') = justStoppedRecording (hooks s)
  ∧ autoCopyTimer (browser s') = autoCopyTimer (browser s)
  ∧ fetches (browser s') = fetches (browser s).

(** A browser in which every audio type is supported. *)
Definition any_type : string → bool := fun _ => true.

(** A chunk of recorded audio. *)
Definition opus_chunk : Blob := mkBlob "OpusHead" "audio/webm;codecs=opus".

(** The message [recognition.onerror] shows for an error code, as the
    specification classifies the codes. *)
Definition spec_error_message (code : string) : string :=
  if decide (code = "not-allowed") then
    "Microphone access denied. Please allow microphone access and try again."
  else if decide (code = "no-speech") then
    "No speech detected. Please try speaking again."
  else if decide (code = "network") then
    "Web Speech is unavailable in this browser or region. Switched to OpenAI transcription."
  else if decide (code = "service-not-allowed") then
    "Web Speech is not allowed. Switched to OpenAI transcription."
  else
    "Speech recognition error: " +:+ code
      +:+ ". Try using OpenAI transcription instead.".

(** A live session showing an interim segment: Live capture started, the
    segment ["hello"] finalized, the segment ["world"] still interim. *)
Definition live_with_interim : Session :=
  run [ClickToggle MediaGranted any_type; RecognitionStart;
       RecognitionResult (mkResultEvent [mkResult true "hello"] 0);
       RecognitionResult (mkResultEvent [mkResult true "hello";
                                         mkResult false "world"] 1)]
      (mount ProbeRunning).

(** A session capturing with the Live backend, and one processing a
    Batch capture. *)
Definition live_capturing : Session :=
  run [ClickToggle MediaGranted any_type; RecognitionStart]
      (mount ProbeRunning).

Definition batch_processing : Session :=
  run [SelectMethod aiml; ClickToggle MediaGranted any_type;
       RecorderData opus_chunk;
       ClickToggle MediaGranted any_type; RecorderStop 0]
      (mount ProbeRunning).



(** How a transcription call ends, as the specification sees it: it
    resolves with a text or is rejected with a message. A successful
    response whose body is [null] is neither: the page fails to render
    it. *)
Inductive CallResult :=
| Resolved (text : string)
| Rejected (msg : string)
| RenderFails (e : JsError).

Definition call_result (o : FetchOutcome) : CallResult :=
  match o with
  | FetchRejected e => Rejected (message e)
  | FetchResponse _ (JsonInvalid e) => Rejected (message e)
  | FetchResponse true JsonNull => RenderFails (null_property_error "text")
  | FetchResponse false JsonNull =>
      Rejected (message (null_property_error "error"))
  | FetchResponse true (JsonObject text _) =>
      Resolved (default Js.undefined_str text)
  | FetchResponse false (JsonObject _ (Some m)) =>
      Rejected (if decide (m = "") then "Error in transcription" else m)
  | FetchResponse false (JsonObject _ None) =>
      Rejected "Error in transcription"
  end.

(** What the render of a settled call finds, in terms of [call_result]. *)
Definition render_of (o : FetchOutcome) : Render :=
  match call_result o with
  | RenderFails e => RenderThrows e
  | _ => Renders
  end.

(** The state a settled call leaves once rendered, before the effects
    run, in terms of [call_result]. *)
Definition settle_hooks (o : FetchOutcome) (s : Session) : Session :=
  match call_result o with
  | Resolved text =>
      setJustStoppedRecording true
        (setIsTranscribing false
           (setTranscript
              (if decide (transcript (hooks s) = "") then text
               else transcript (hooks s) +:+ Js.LFLF +:+ text) s))
  | Rejected msg =>
      setJustStoppedRecording true
        (setIsTranscribing false
           (setError ("Transcription error: " +:+ msg) s))
  | RenderFails _ => s
  end.

(** A session with an interim segment and an empty transcript. *)
Definition interim_only : Session :=
  run [RecognitionResult (mkResultEvent [mkResult false "world"] 0)]
      live_capturing.

(** A Batch session with auto-copy enabled whose transcript is a single
    line feed typed by the user, and whose capture has been handed off. *)
Definition blank_processing : Session :=
  run [SelectMethod aiml; AutoCopyChecked true;
       TextareaInput (InsertText 0 Js.LF);
       ClickToggle MediaGranted any_type;
       RecorderData opus_chunk;
       ClickToggle MediaGranted any_type; RecorderStop 0]
      (mount ProbeRunning).

(** A Batch capture of a session with auto-copy enabled, transcribed as
    ["hello"]: the events up to the settled call. *)
Definition batch_capture_events : list Event :=
  [SelectMethod aiml; AutoCopyChecked true;
   ClickToggle MediaGranted any_type;
   RecorderData opus_chunk;
   ClickToggle MediaGranted any_type; RecorderStop 0;
   FetchSettled 0 (FetchResponse true (JsonObject (Some "hello") None))].

(** Nothing that captures was opened between [s] and [s']: no stream was
    acquired, no recorder made, and neither the recognizer nor a recorder
    was started. *)
Definition no_new_capture (s s' : Session) : Prop :=
  mediaStreams (browser s') = mediaStreams (browser s)
  ∧ length (mediaRecorders (browser s')) = length (mediaRecorders (browser s))
  ∧ recognizer_open s' ≤ recognizer_open s
  ∧ recorders_recording s' ≤ recorders_recording s.

(** A session recording with the Batch backend after the user went back
    to the Live radio. *)
Definition batch_recording_live_selected : Session :=
  run [SelectMethod aiml; ClickToggle MediaGranted any_type;
       SelectMethod web_api]
      (mount ProbeRunning).

(** The audio type [startWhisperRecording] settles on. *)
Definition chosen_mimeType (isTypeSupported : string → bool) : string :=
  pickMimeType isTypeSupported supportedTypes "audio/webm;codecs=opus".

(** A Batch recording in progress on stream [stream] with recorder
    [rid], [calls] transcription calls having been made so far. *)
Definition batch_recording (stream rid calls : nat) (mimeType : string)
    (s : Session) : Prop :=
  mediaStreams (browser s) !! stream = Some 0
  ∧ mediaRecorders (browser s) !! rid
    = Some (mkRecorder stream mimeType recording false)
  ∧ mediaRecorderRef (refs s) = Some rid
  ∧ length (fetches (browser s)) = calls
  ∧ isRecording (hooks s) = true
  ∧ transcriptionMethod (hooks s) = aiml
  ∧ isTranscribing (hooks s) = false.

(** *** Who is still to release a stream

    A recorder whose [stop] event has not been delivered will hand its
    stream to a transcription call; a call that has not settled will stop
    the tracks of its stream. *)
Definition due_recorder (i : nat) (r : MediaRecorder) : bool :=
  negb (stop_fired r) && bool_decide (rec_stream r = i).

Definition due_call (i : nat) (p : PendingFetch) : bool :=
  negb (pf_settled p) && bool_decide (pf_stream p = i).

Fixpoint count {A} (f : A → bool) (l : list A) : nat :=
  match l with
  | [] => 0
  | x :: l' => (if f x then 1 else 0) + count f l'
  end.

(** How many times the tracks of stream [i] have been stopped. *)
Definition stop_calls (streams : list nat) (i : nat) : nat :=
  default 0 (streams !! i).

(** Every stream has, between the stops already made and the releases
    still due, at most one; and nothing is due on a stream that does not
    exist yet. *)
Definition tables_inv (streams : list nat) (recs : list MediaRecorder)
    (calls : list PendingFetch) : Prop :=
  ∀ i, stop_calls streams i + count (due_recorder i) recs
         + count (due_call i) calls ≤ 1
       ∧ (length streams ≤ i →
          count (due_recorder i) recs + count (due_call i) calls = 0).

Definition streams_inv (s : Session) : Prop :=
  tables_inv (mediaStreams (browser s)) (mediaRecorders (browser s))
             (fetches (browser s)).

(** Going from [s] to [s'] keeps [streams_inv]. *)
Definition keeps_streams_inv (s s' : Session) : Prop :=
  streams_inv s → streams_inv s'.

(** Streams are never forgotten and their stop counts never decrease. *)
Definition streams_grow (s s' : Session) : Prop :=
  ∀ i n, mediaStreams (browser s) !! i = Some n →
         ∃ n', mediaStreams (browser s') !! i = Some n' ∧ n ≤ n'.

(** ** Notions used to state further properties *)

(** Reading a shown time back: the text before the first colon is the
    minutes, the text after it the seconds, both in decimal. *)
Fixpoint split_colon (s : string) : string * string :=
  match s with
  | EmptyString => (EmptyString, EmptyString)
  | String c s' =>
      if Ascii.eqb c ":" then (EmptyString, s')
      else let '(a, b) := split_colon s' in (String c a, b)
  end.

Definition parse_nat (s : string) : option nat :=
  Nat.of_uint <$> DecimalString.NilEmpty.uint_of_string s.

Definition parseTime (s : string) : option nat :=
  let '(m, r) := split_colon s in
  mins ← parse_nat m; secs ← parse_nat r; Some (mins * 60 + secs).

(** [n] timer ticks. *)
Definition ticks (n : nat) : list Event := replicate n TimerTick.

(** The probe ended without a usable recognizer at mount. *)
Definition probe_failed (p : ProbeOutcome) : bool :=
  match p with
  | ProbeRunning => false
  | _ => true
  end.

(** Whenever Live is marked unavailable, Batch is the active backend. *)
Definition unsupported_is_batch (s : Session) : Prop :=
  isSupported (hooks s) = false → transcriptionMethod (hooks s) = aiml.

(** The message [startListening] shows when its [try] block throws. *)
Definition microphone_denied : string :=
  "Microphone access denied. Please allow microphone access and try again.".

(** No type of [types] is supported. *)
Definition none_supported (isTypeSupported : string → bool)
    (types : list string) : Prop :=
  Forall (fun type => isTypeSupported type = false) types.

(** The chunks [ondataavailable] keeps: those that are not empty. *)
Definition kept_chunks (datas : list Blob) : list Blob :=
  filter (fun data => 0 < blob_size data) datas.

(** The events of one Batch capture: the toggle that starts it, the
    chunks the recorder delivers while it records, the toggle that stops
    it, the chunks delivered after the stop request (a browser delivers
    the recording then), and the recorder's [stop] event; [rid] is the
    recorder the capture makes. *)
Definition batch_capture (ts : string → bool) (datas : list Blob)
    (um : UserMediaOutcome) (ts' : string → bool) (datas' : list Blob)
    (rid : nat) : list Event :=
  ClickToggle MediaGranted ts
    :: (RecorderData <$> datas)
    ++ ClickToggle um ts'
    :: (RecorderData <$> datas') ++ [RecorderStop rid].

(** The bytes of a sequence of chunks, in their order. *)
Definition chunk_bytes (datas : list Blob) : string :=
  join (blob_data <$> datas).

(** The transcript and the interim text are what they were. *)
Definition same_text (s s' : Session) : Prop :=
  transcript (hooks s') = transcript (hooks s)
  ∧ interimTranscript (hooks s') = interimTranscript (hooks s).

(** The events that can rewrite the transcript: Clear, its shortcut
    Ctrl+D, and typing in the transcript area. *)
Definition edits_transcript (ev : Event) : bool :=
  match ev with
  | ClickClear | TextareaInput _ => true
  | KeyDown event _ _ _ => ctrlKey event && Js.seq (key event) "d"
  | _ => false
  end.

(** The Space key, and the language the recognizer is set to. *)
Definition space : KeyboardEvent := mkKey false " " "Space".

Definition recognizer_lang (s : Session) : option string :=
  lang <$> recognitionRef (refs s).

(** The two refusals of the endpoint and its failure message. *)
Definition no_audio : string := "No audio file provided".
Definition too_large : string := "File too large (max 25MB)".
Definition whisper_failed : string :=
  "Failed to transcribe audio with OpenAI Whisper".

(** The endpoint accepts the entry: it is there, truthy, and not a file
    above the size limit. *)
Definition accepted (audio : option Route.FormDataEntryValue) : bool :=
  match audio with
  | Some v =>
      Route.entry_truthy v
      && match Route.entry_size v with
         | Some n => n <=? Route.max_size
         | None => true
         end
  | None => false
  end.

(** An error of the OpenAI client: the quota of the key is used up. The
    client's errors carry no [response]. *)
Definition mkApiError_quota : Route.ApiError :=
  Route.mkApiError
    "429 You exceeded your current quota, please check your plan and billing details."
    None.

(** Stream [i] is live and nobody is due to release it: no recorder
    whose [stop] event is still to come captured it, and no transcription
    call in flight holds it. *)
Definition unclaimed (i : nat) (s : Session) : Prop :=
  mediaStreams (browser s) !! i = Some 0
  ∧ count (due_recorder i) (mediaRecorders (browser s)) = 0
  ∧ count (due_call i) (fetches (browser s)) = 0.

Definition keeps_unclaimed (i : nat) (s s' : Session) : Prop :=
  unclaimed i s → unclaimed i s'.

(** Transcription call [q] is in flight. *)
Definition in_flight (q : nat) (s : Session) : Prop :=
  ∃ pf, fetches (browser s) !! q = Some pf ∧ pf_settled pf = false.

(** While the page shows a transcription in progress, a call is in
    flight. *)
Definition processing_has_call (s : Session) : Prop :=
  isTranscribing (hooks s) = true → ∃ q, in_flight q s.

(** What one result event appends to the transcript: the finalized text
    of its batch and one space, or nothing when there is none. *)
Definition appended (event : SpeechRecognitionEvent) : string :=
  let finalTranscript := join (finals (batch event)) in
  if Js.truthy finalTranscript then finalTranscript +:+ " " else "".

(** * Properties *)

(** ** Strings *)

Lemma append_assoc (a b c : string) : (a +:+ b) +:+ c = a +:+ (b +:+ c).
Proof.
  induction a as [|x a IH]; [done|].
  change (String x ((a +:+ b) +:+ c) = String x (a +:+ (b +:+ c))).
  by rewrite IH.
Qed.

Lemma append_nil_r (a : string) : a +:+ "" = a.
Proof.
  induction a as [|x a IH]; [done|].
  change (String x (a +:+ "") = String x a). by rewrite IH.
Qed.

Lemma truthy_spec (a : string) : Js.truthy a = true ↔ a ≠ "".
Proof. destruct a; cbn; split; congruence. Qed.

Lemma trimStart_truthy (a : string) :
  Js.truthy (Js.trimStart a) = true → Js.truthy a = true.
Proof. destruct a; [done|]. by intros _. Qed.

Lemma rev_app_truthy (a b : string) :
  Js.truthy (String.rev_app a b) = Js.truthy a || Js.truthy b.
Proof.
  revert b. induction a as [|x a IH]; intros b; [done|].
  cbn. rewrite IH. cbn. by rewrite orb_true_r.
Qed.

Lemma rev_truthy (a : string) : Js.truthy (String.rev a) = Js.truthy a.
Proof. unfold String.rev. rewrite rev_app_truthy. cbn. by rewrite orb_false_r. Qed.

(** A string that is not empty after [trim] was not empty before. *)
Lemma trim_truthy (a : string) :
  Js.truthy (Js.trim a) = true → Js.truthy a = true.
Proof.
  unfold Js.trim, Js.trimEnd. rewrite rev_truthy.
  intros H%trimStart_truthy. rewrite rev_truthy in H.
  by apply trimStart_truthy.
Qed.

(** ** Live results: [recognition.onresult] *)

Lemma onresult_loop_spec rs fuel i f t :
  length rs - i ≤ fuel →
  onresult_loop rs fuel i f t
  = (f +:+ join (finals (drop i rs)), t +:+ join (interims (drop i rs))).
Proof.
  revert i f t. induction fuel as [|fuel IH]; intros i f t Hfuel.
  - rewrite drop_ge by lia. cbn. by rewrite !append_nil_r.
  - cbn [onresult_loop]. destruct (rs !! i) as [r|] eqn:Hi.
    + rewrite (drop_S _ _ _ Hi).
      assert (length rs - S i ≤ fuel) as Hfuel'.
      { apply lookup_lt_Some in Hi. lia. }
      unfold finals, interims.
      destruct (isFinal r) eqn:Hr.
      * rewrite IH by done.
        rewrite filter_cons_True by done.
        rewrite (filter_cons_False (fun r => isFinal r = false)) by congruence.
        cbn [fmap list_fmap join foldr]. unfold finals, interims, join.
        by rewrite append_assoc.
      * rewrite IH by done.
        rewrite filter_cons_False by congruence.
        rewrite (filter_cons_True (fun r => isFinal r = false)) by done.
        cbn [fmap list_fmap join foldr]. unfold finals, interims, join.
        by rewrite append_assoc.
    + apply lookup_ge_None in Hi. rewrite drop_ge by done.
      cbn. by rewrite !append_nil_r.
Qed.

(** C1, as stated, fails: two finalized segments in one batch are joined
    without a space between them and get one trailing space together; and
    a finalized segment that already ends in a space, as ["hello "], is
    followed by a second one. *)
Lemma C1_each_segment_spaced_counterexample :
  let event := mkResultEvent [mkResult true "a"; mkResult true "b"] 0 in
  let hello := mkResultEvent [mkResult true "hello "] 0 in
  transcript (hooks (onresult event initial)) = "ab "
  ∧ spec_transcript_after event initial = "a b "
  ∧ transcript (hooks (onresult event initial))
    ≠ spec_transcript_after event initial
  ∧ transcript (hooks (onresult hello initial)) = "hello  "
  ∧ transcript (hooks (onresult hello initial)) ≠ "hello ".
Proof. vm_compute. split_and!; done || discriminate. Qed.

(** C1 (amended): the finalized segments of a batch are concatenated as
    they are and, when that text is not empty, appended to [transcript]
    followed by one space for the whole batch; the non-final text of the
    batch (the empty string when there is none) replaces [interimText].
    From an empty transcript, the batch with final segment ["hello"] and
    then the batch with interim segment ["world"] leave [transcript]
    equal to ["hello "] and [interimText] equal to ["world"]. *)
Theorem C1_onresult_batch :
  (∀ (event : SpeechRecognitionEvent) (s : Session),
     let finalTranscript := join (finals (batch event)) in
     transcript (hooks (onresult event s))
     = (if Js.truthy finalTranscript
        then transcript (hooks s) +:+ finalTranscript +:+ " "
        else transcript (hooks s))
     ∧ interimTranscript (hooks (onresult event s))
       = join (interims (batch event)))
  ∧ (let s1 := onresult (mkResultEvent [mkResult true "hello"] 0) initial in
     let s2 := onresult (mkResultEvent [mkResult true "hello";
                                        mkResult false "world"] 1) s1 in
     transcript (hooks s2) = "hello "
     ∧ interimTranscript (hooks s2) = "world").
Proof.
  split; [|by vm_compute].
  intros event s finalTranscript. unfold onresult.
  rewrite onresult_loop_spec by lia. fold (batch event).
  change ("" +:+ join (finals (batch event))) with finalTranscript.
  change ("" +:+ ?x) with x.
  by destruct (Js.truthy finalTranscript).
Qed.

(** ** Frame properties of the handlers and of the effects *)

Ltac unfold_handlers :=
  unfold handle, handleKeyDown, toggleRecording, startListening,
    stopListening, startWhisperRecording, stopWhisperRecording,
    copyToClipboard, clearTranscript, onstart, onend, onresult, onerror,
    handleTestError, testTimeout, speechEffect, ondataavailable,
    onstop_begin, onstop_resume, onstop_settle, rendered, transcribe_resume,
    transcribe_before_await, transcribe_after_await, transcribe_catch,
    transcribe_finally, textarea_onChange, recognizer_ended,
    recognition_stop, startTimer, stopTimer, try_catch, try_finally,
    mbind, M_bind, bind, mret, M_ret, ret, exec, throw, getUserMedia,
    recognition_set_lang, recognition_start, new_MediaRecorder,
    recorder_start, recorder_stop, stop_tracks, writeText, final in *.


(** The effects write [justStoppedRecording], the auto-copy timeout and
    the keyboard closure, and nothing else. *)
Lemma autoCopyEffect_shape (s : Session) :
  ∃ b t, autoCopyEffect s = set_autoCopyTimer t (setJustStoppedRecording b s).
Proof.
  unfold autoCopyEffect.
  destruct s as [[? ? ? ? ? ? ? ? ? ? ? ? flag] [] [? ? ? ? ? ? ? timer ?]]. cbn.
  destruct (_ && _ && _).
  - by exists flag, (Some (500, transcript1)).
  - destruct flag; [by exists false, None | by exists false, None].
Qed.

Lemma render_effects_shape (old new : Session) :
  ∃ b t k,
    render_effects old new
    = set_keydownClosure k (set_autoCopyTimer t (setJustStoppedRecording b new)).
Proof.
  unfold render_effects.
  set (new' := if decide (keydown_deps old = keydown_deps new) then new else _).
  assert (∃ k, new' = set_keydownClosure k new) as [k ->].
  { subst new'. case_decide; [|eexists; reflexivity].
    exists (keydownClosure (browser new)). by destruct new as [? ? []]. }
  case_decide.
  { exists (justStoppedRecording (hooks new)), (autoCopyTimer (browser new)), k.
    by destruct new as [[] ? []]. }
  destruct (autoCopyEffect_shape (set_keydownClosure k new)) as (b & t & ->).
  case_decide; [by exists b, t, k; destruct new as [[] ? []]|].
  destruct (autoCopyEffect_shape
    (set_autoCopyTimer t (setJustStoppedRecording b (set_keydownClosure k new))))
    as (b' & t' & ->).
  exists b', t', k. by destruct new as [[] ? []].
Qed.

Lemma render_effects_id (s : Session) : render_effects s s = s.
Proof. unfold render_effects. repeat case_decide; done. Qed.

(** *** Composing handlers in [M] *)

Section Preserves.
Context (R : relation Session) `{!PreOrder R}.

Lemma preserves_ret {A} (a : A) : preserves R (mret a).
Proof. intros s. reflexivity. Qed.

Lemma preserves_throw {A} (e : JsError) : preserves R (throw (A:=A) e).
Proof. intros s. reflexivity. Qed.

Lemma preserves_exec (f : Session → Session) :
  (∀ s, R s (f s)) → preserves R (exec f).
Proof. intros Hf s. apply Hf. Qed.

Lemma preserves_bind {A B} (m : M A) (k : A → M B) :
  preserves R m → (∀ a, preserves R (k a)) → preserves R (m ≫= k).
Proof.
  intros Hm Hk s. specialize (Hm s).
  unfold mbind, M_bind, bind. destruct (m s) as [a s'|e s']; [|done].
  etrans; [exact Hm|apply Hk].
Qed.

Lemma preserves_try_catch {A} (body : M A) (handler : JsError → M A) :
  preserves R body → (∀ e, preserves R (handler e)) →
  preserves R (try_catch body handler).
Proof.
  intros Hb Hh s. specialize (Hb s).
  unfold try_catch. destruct (body s) as [a s'|e s']; [done|].
  etrans; [exact Hb|apply Hh].
Qed.

Lemma preserves_try_finally {A} (body : M A) (fin : M unit) :
  preserves R body → preserves R fin →
  preserves R (try_finally body fin).
Proof.
  intros Hb Hf s. specialize (Hb s).
  unfold try_finally.
  destruct (body s) as [a s'|e s']; specialize (Hf s');
    destruct (fin s'); by etrans.
Qed.

Lemma preserves_final {A} (m : M A) (s : Session) :
  preserves R m → R s (final (m s)).
Proof. intros H. apply H. Qed.
End Preserves.

Global Instance quiet_preorder : PreOrder quiet.
Proof.
  split; [by intros s|].
  intros a b c (?&?&?&?&?&?&?) (?&?&?&?&?&?&?).
  unfold quiet. split_and!; congruence.
Qed.

Ltac preserves_step :=
  lazymatch goal with
  | |- PreOrder _ => apply _
  | |- ∀ _ : JsError, _ => intros ?
  | |- ∀ _ : Session, _ => intros ?
  | |- ∀ _ : nat, _ => intros ?
  | |- ∀ _ : unit, _ => intros ?
  | |- ?R ?s (final (?m ?s)) => apply (preserves_final R m s)
  | |- preserves _ (mbind _ _) => apply preserves_bind
  | |- preserves _ (try_catch _ _) => apply preserves_try_catch
  | |- preserves _ (try_finally _ _) => apply preserves_try_finally
  | |- preserves _ (exec _) => apply preserves_exec
  | |- preserves _ (mret _) => apply preserves_ret
  | |- preserves _ (throw _) => apply preserves_throw
  end.
Ltac preserves_steps := repeat preserves_step.

Lemma getUserMedia_quiet um : preserves quiet (getUserMedia um).
Proof. intros s. by destruct um. Qed.

Lemma writeText_quiet text c : preserves quiet (writeText text c).
Proof. intros s. by destruct c. Qed.

Lemma recognition_set_lang_quiet language :
  preserves quiet (recognition_set_lang language).
Proof. intros s. unfold recognition_set_lang. by case_match. Qed.

Lemma recognition_start_quiet : preserves quiet recognition_start.
Proof. intros s. unfold recognition_start. by repeat case_match. Qed.

Lemma new_MediaRecorder_quiet ts stream mimeType :
  preserves quiet (new_MediaRecorder ts stream mimeType).
Proof. intros s. unfold new_MediaRecorder. by case_match. Qed.

Lemma startTimer_quiet s : quiet s (startTimer s).
Proof. done. Qed.

Lemma stopTimer_quiet s : quiet s (stopTimer s).
Proof. unfold stopTimer. by case_match. Qed.

Lemma startListening_quiet sup language um :
  preserves quiet (startListening sup language um).
Proof.
  intros s. unfold startListening. case_match; [done|].
  preserves_steps;
    auto using getUserMedia_quiet, recognition_set_lang_quiet,
      recognition_start_quiet, startTimer_quiet; done.
Qed.

Lemma stopListening_quiet s : quiet s (stopListening s).
Proof. unfold stopListening, recognition_stop. case_match; apply stopTimer_quiet. Qed.

Lemma startWhisperRecording_quiet um ts :
  preserves quiet (startWhisperRecording um ts).
Proof.
  unfold startWhisperRecording.
  preserves_steps;
    auto using getUserMedia_quiet, new_MediaRecorder_quiet, startTimer_quiet;
    done.
Qed.

Lemma stopWhisperRecording_quiet s : quiet s (stopWhisperRecording s).
Proof.
  unfold stopWhisperRecording.
  etrans; [|apply stopTimer_quiet]. by repeat case_match.
Qed.

Lemma copyToClipboard_quiet text c : preserves quiet (copyToClipboard text c).
Proof.
  unfold copyToClipboard.
  preserves_steps; auto using writeText_quiet; done.
Qed.

Lemma clearTranscript_quiet s : quiet s (clearTranscript s).
Proof. done. Qed.

Lemma toggleRecording_quiet sup language um ts s :
  quiet s (toggleRecording sup language um ts s).
Proof.
  unfold toggleRecording. repeat case_match;
    first [ apply stopListening_quiet | apply stopWhisperRecording_quiet
          | apply startListening_quiet | apply startWhisperRecording_quiet ].
Qed.

Lemma handleKeyDown_quiet event um ts c s :
  quiet s (handleKeyDown event um ts c s).
Proof.
  unfold handleKeyDown.
  set (s1 := if _ && _ && _ then final (copyToClipboard _ _ _) else _).
  set (s2 := if _ && _ && _ then clearTranscript _ else _).
  assert (quiet s s1) as H1.
  { subst s1. case_match; [apply copyToClipboard_quiet|done]. }
  assert (quiet s1 s2) as H2.
  { subst s2. case_match; [apply clearTranscript_quiet|done]. }
  etrans; [exact H1|]. etrans; [exact H2|].
  repeat case_match;
    first [ apply stopListening_quiet | apply stopWhisperRecording_quiet
          | apply startListening_quiet | apply startWhisperRecording_quiet
          | done ].
Qed.

(** The recording controls are quiet. *)
Lemma controls_quiet (ev : Event) (s : Session) :
  match ev with
  | KeyDown _ _ _ _ | ClickToggle _ _ | ClickCopy _ | ClickClear => True
  | _ => False
  end →
  quiet s (handle ev s).
Proof.
  destruct ev; try done; intros _; cbn [handle].
  - apply handleKeyDown_quiet.
  - case_match; [done|apply toggleRecording_quiet].
  - case_match; [apply copyToClipboard_quiet|done].
  - case_match; [apply clearTranscript_quiet|done].
Qed.
(** What a handler can do to the cells that the invariants below are
    about:
    - Batch stays selected, and the Web Speech radio disabled, once Live
      recognition is lost;
    - only the auto-copy timeout itself touches the pending timeout;
    - [justStoppedRecording] is raised by a capture completion only;
    - [isTranscribing] is lowered by a settled transcription call only. *)
Lemma handle_frame (ev : Event) (s : Session) :
  (capability_lost s → capability_lost (handle ev s))
  ∧ ((∀ c, ev ≠ AutoCopyTimeout c) →
     autoCopyTimer (browser (handle ev s)) = autoCopyTimer (browser s))
  ∧ (justStoppedRecording (hooks (handle ev s)) = true →
     justStoppedRecording (hooks s) = true ∨ is_completion ev s = true)
  ∧ (isTranscribing (hooks s) = true → (∀ q o, ev ≠ FetchSettled q o) →
     isTranscribing (hooks (handle ev s)) = true).
Proof.
  assert (quiet s (handle ev s) →
          (capability_lost s → capability_lost (handle ev s))
          ∧ ((∀ c, ev ≠ AutoCopyTimeout c) →
             autoCopyTimer (browser (handle ev s)) = autoCopyTimer (browser s))
          ∧ (justStoppedRecording (hooks (handle ev s)) = true →
             justStoppedRecording (hooks s) = true ∨ is_completion ev s = true)
          ∧ (isTranscribing (hooks s) = true → (∀ q o, ev ≠ FetchSettled q o) →
             isTranscribing (hooks (handle ev s)) = true)) as Hquiet.
  { intros (Hs & Hm & Ht & _ & Hj & Hc & _). unfold capability_lost.
    rewrite Hs, Hm, Ht, Hj, Hc. tauto. }
  unfold capability_lost, is_completion.
  destruct ev;
    try (apply Hquiet; by apply controls_quiet);
    clear Hquiet; unfold_handlers; repeat case_match; simplify_eq/=;
    (split_and!; [intros [??] | intros ? | intros ? | intros ? ?]);
    first [ done | by split | by left | by right | congruence
          | exfalso; naive_solver ].
Qed.

Lemma step_capability_lost (ev : Event) (s : Session) :
  capability_lost s → capability_lost (step ev s).
Proof.
  intros H%(proj1 (handle_frame ev s)). revert H.
  unfold capability_lost, step.
  by destruct (render_effects_shape s (handle ev s)) as (b & t & k & ->).
Qed.

Lemma run_capability_lost (evs : list Event) (s : Session) :
  capability_lost s → capability_lost (run evs s).
Proof.
  revert s. induction evs as [|ev evs IH]; intros s H; [done|].
  cbn. by apply IH, step_capability_lost.
Qed.

(** ** The auto-copy effect *)

(** Whatever the session, the auto-copy effect, run until its
    dependencies no longer change, leaves it settled. *)
Lemma autoCopyEffect_settled (s : Session) :
  let s1 := autoCopyEffect s in
  effect_settled
    (if decide (autoCopy_deps s = autoCopy_deps s1) then s1
     else autoCopyEffect s1).
Proof.
  unfold autoCopyEffect, effect_settled, autoCopy_deps.
  destruct s as [[? text ? ? ? ? ? ? ? ? ? enabled flag] ? []].
  cbn -[Js.trim].
  destruct flag, enabled, (Js.truthy (Js.trim text)) eqn:Htrim;
    cbn -[Js.trim]; case_decide; cbn -[Js.trim];
    rewrite ?Htrim; cbn -[Js.trim]; done.
Qed.

Lemma render_effects_settled (old new : Session) :
  effect_settled old →
  autoCopyTimer (browser new) = autoCopyTimer (browser old)
  ∨ autoCopy_deps old ≠ autoCopy_deps new →
  effect_settled (render_effects old new).
Proof.
  intros Hold Hnew. unfold render_effects.
  set (new' := if decide (keydown_deps old = keydown_deps new) then new else _).
  assert (autoCopy_deps new' = autoCopy_deps new
          ∧ autoCopyTimer (browser new') = autoCopyTimer (browser new))
    as [Hdeps Htimer] by (subst new'; by case_decide).
  destruct (decide (autoCopy_deps old = autoCopy_deps new')) as [Heq|_];
    [|apply autoCopyEffect_settled].
  destruct Hnew as [Hnew|Hnew]; [|by rewrite <-Hdeps in Hnew].
  revert Hold. unfold effect_settled.
  unfold autoCopy_deps in Heq.
  injection Heq as -> -> ->. by rewrite Htimer, Hnew.
Qed.

Lemma step_settled (ev : Event) (s : Session) :
  effect_settled s → effect_settled (step ev s).
Proof.
  intros Hs. apply render_effects_settled; [done|].
  assert ((∃ c, ev = AutoCopyTimeout c) ∨ (∀ c, ev ≠ AutoCopyTimeout c))
    as [[c ->]|Hev] by (destruct ev; eauto).
  - cbn. destruct (autoCopyTimer (browser s)) as [[d t]|] eqn:Ht; [|by left].
    right. unfold effect_settled in Hs. rewrite Ht in Hs.
    destruct (justStoppedRecording (hooks s)) eqn:Hflag; [|done].
    unfold autoCopy_deps. rewrite Hflag. cbn. congruence.
  - left. by apply handle_frame.
Qed.

Lemma mount_settled (p : ProbeOutcome) : effect_settled (mount p).
Proof. by destruct p. Qed.

Lemma run_settled (evs : list Event) (s : Session) :
  effect_settled s → effect_settled (run evs s).
Proof.
  revert s. induction evs as [|ev evs IH]; intros s H; [done|].
  cbn. by apply IH, step_settled.
Qed.

Lemma reachable_settled (s : Session) : reachable s → effect_settled s.
Proof. intros (p & evs & ->). apply run_settled, mount_settled. Qed.

(** The effects never raise [justStoppedRecording]. *)
Lemma render_effects_flag (old new : Session) :
  justStoppedRecording (hooks (render_effects old new)) = true →
  justStoppedRecording (hooks new) = true.
Proof.
  unfold render_effects.
  set (new' := if decide (keydown_deps old = keydown_deps new) then new else _).
  assert (hooks new' = hooks new) as Hh by (subst new'; by case_decide).
  rewrite <-Hh. generalize new'. clear. intros s.
  assert (∀ s, justStoppedRecording (hooks (autoCopyEffect s)) = true →
               justStoppedRecording (hooks s) = true) as Heff.
  { clear. intros s. unfold autoCopyEffect. cbn.
    repeat case_match; cbn; congruence. }
  repeat case_decide; eauto.
Qed.

(** Along any run from a settled session, the auto-copy timeout fires no
    more often than captures complete, counting a completion that is
    still to be served. *)
Lemma auto_copies_bounded (evs : list Event) (s : Session) :
  effect_settled s →
  count_events is_auto_copy evs s
  ≤ count_events is_completion evs s
    + (if justStoppedRecording (hooks s) then 1 else 0).
Proof.
  revert s. induction evs as [|ev evs IH]; intros s Hs; [cbn; lia|].
  cbn [count_events]. specialize (IH _ (step_settled ev s Hs)).
  assert ((if is_auto_copy ev s then 1 else 0)
          + (if justStoppedRecording (hooks (step ev s)) then 1 else 0)
          ≤ (if is_completion ev s then 1 else 0)
            + (if justStoppedRecording (hooks s) then 1 else 0)); [|lia].
  clear IH.
  destruct (is_auto_copy ev s) eqn:Hcopy.
  - destruct ev; try done. cbn in Hcopy.
    apply bool_decide_eq_true in Hcopy as [[d t] Ht].
    unfold effect_settled in Hs. rewrite Ht in Hs.
    destruct (justStoppedRecording (hooks s)) eqn:Hflag; [|done].
    destruct (justStoppedRecording (hooks (step _ s))) eqn:Hflag'; [|lia].
    apply render_effects_flag in Hflag'. cbn in Hflag'.
    rewrite Ht in Hflag'. done.
  - destruct (justStoppedRecording (hooks (step ev s))) eqn:Hflag'; [|lia].
    apply render_effects_flag, handle_frame in Hflag' as [->| ->]; lia.
Qed.

(** ** Interim text and the transcript *)

(** Result delivery, clearing and stopping do not read the interim text:
    the transcript they leave is the same whatever the interim text was. *)
Lemma interim_not_read (i : string) (s : Session) :
  (∀ event, transcript (hooks (onresult event (setInterimTranscript i s)))
            = transcript (hooks (onresult event s)))
  ∧ transcript (hooks (clearTranscript (setInterimTranscript i s)))
    = transcript (hooks (clearTranscript s))
  ∧ transcript (hooks (onend (setInterimTranscript i s)))
    = transcript (hooks (onend s))
  ∧ transcript (hooks (stopListening (setInterimTranscript i s)))
    = transcript (hooks (stopListening s)).
Proof.
  split_and!.
  - intros event. unfold onresult.
    destruct (onresult_loop _ _ _ _ _) as [f t]. by destruct (Js.truthy f).
  - done.
  - unfold onend, stopTimer. cbn. by case_match.
  - unfold stopListening, stopTimer, recognition_stop. cbn.
    by repeat case_match.
Qed.

(** C2 (code defect): typing into the transcript area while an interim
    segment is shown stores the shown text, interim segment included, as
    the transcript. With ["hello "] finalized and ["world"] interim, typing
    ["!"] at the end makes [transcript] equal to ["hello world!"] although
    ["world"] was never finalized; [interimText] is still ["world"], so the
    area then shows ["hello world!world"]. *)
Theorem C2_edit_persists_interim :
  let s := live_with_interim in
  let s' := step (TextareaInput (InsertText 11 "!")) s in
  transcript (hooks s) = "hello "
  ∧ interimTranscript (hooks s) = "world"
  ∧ textareaValue s = "hello world"
  ∧ transcript (hooks s') = "hello world!"
  ∧ interimTranscript (hooks s') = "world"
  ∧ textareaValue s' = "hello world!world".
Proof. by vm_compute. Qed.

(** ** Switching the backend *)

(** C3, as stated, fails: while Live is capturing, selecting Batch changes
    the active backend; while a Batch capture is being processed,
    selecting Live changes it as well. *)
Lemma C3_switch_not_ignored_counterexample :
  (status live_capturing = Capturing
   ∧ transcriptionMethod (hooks live_capturing) = web_api
   ∧ transcriptionMethod (hooks (step (SelectMethod aiml) live_capturing))
     = aiml)
  ∧ (status batch_processing = Processing
     ∧ transcriptionMethod (hooks batch_processing) = aiml
     ∧ transcriptionMethod
         (hooks (step (SelectMethod web_api) batch_processing))
       = web_api).
Proof. by vm_compute. Qed.

(** C3 (amended): the active backend can be changed in every status.
    Selecting Batch makes Batch the active backend; selecting Live makes
    Live the active backend unless Live has been marked unavailable, in
    which case the selection is ignored. *)
Theorem C3_backend_switch_any_status (s : Session) :
  transcriptionMethod (hooks (step (SelectMethod aiml) s)) = aiml
  ∧ transcriptionMethod (hooks (step (SelectMethod web_api) s))
    = (if isSupported (hooks s) then web_api
       else transcriptionMethod (hooks s)).
Proof.
  unfold step.
  split.
  - by destruct (render_effects_shape s (handle (SelectMethod aiml) s))
      as (b & t & k & ->).
  - destruct (render_effects_shape s (handle (SelectMethod web_api) s))
      as (b & t & k & ->).
    cbn. by destruct (isSupported (hooks s)).
Qed.

(** ** Recognition errors *)

Lemma seq_decide (a b : string) : Js.seq a b = bool_decide (a = b).
Proof.
  unfold Js.seq. destruct (String.eqb_spec a b).
  - by rewrite bool_decide_eq_true_2.
  - by rewrite bool_decide_eq_false_2.
Qed.

Lemma render_effects_capability_lost (old new : Session) :
  capability_lost new → capability_lost (render_effects old new).
Proof.
  by destruct (render_effects_shape old new) as (b & t & k & ->).
Qed.

Lemma onerror_capability_lost (code : string) (s : Session) :
  code = "network" ∨ code = "service-not-allowed" →
  capability_lost (onerror code s).
Proof. by intros [-> | ->]. Qed.

Lemma onerror_message (code : string) (s : Session) :
  error (hooks (onerror code s)) = spec_error_message code.
Proof.
  unfold onerror, spec_error_message. rewrite !seq_decide.
  repeat case_bool_decide; repeat case_decide; done.
Qed.

Lemma onerror_other (code : string) (s : Session) :
  code ≠ "network" → code ≠ "service-not-allowed" →
  transcriptionMethod (hooks (onerror code s)) = transcriptionMethod (hooks s)
  ∧ isSupported (hooks (onerror code s)) = isSupported (hooks s).
Proof.
  intros H1 H2. unfold onerror. rewrite !seq_decide.
  repeat case_bool_decide; done.
Qed.

(** C5: [recognition.onerror] shows the message of the error's class;
    ["network"] and ["service-not-allowed"] select Batch and from then on
    Batch stays selected, through every further event, and selecting Live
    is ignored; every other code leaves the backend as it is. *)
Theorem C5_onerror_classification (code : string) (s : Session) :
  let s' := step (RecognitionError code) s in
  error (hooks s') = spec_error_message code
  ∧ (code = "network" ∨ code = "service-not-allowed" →
     ∀ evs, transcriptionMethod (hooks (run evs s')) = aiml
            ∧ step (SelectMethod web_api) (run evs s') = run evs s')
  ∧ (code ≠ "network" → code ≠ "service-not-allowed" →
     transcriptionMethod (hooks s') = transcriptionMethod (hooks s)
     ∧ isSupported (hooks s') = isSupported (hooks s)).
Proof.
  intros s'. split_and!.
  - subst s'. unfold step.
    destruct (render_effects_shape s (handle (RecognitionError code) s))
      as (b & t & k & ->).
    apply onerror_message.
  - intros Hcode evs.
    assert (capability_lost (run evs s')) as [Hs Hm].
    { apply run_capability_lost, render_effects_capability_lost.
      by apply onerror_capability_lost. }
    split; [done|]. unfold step. cbn. rewrite Hs. apply render_effects_id.
  - intros H1 H2. subst s'. unfold step.
    destruct (render_effects_shape s (handle (RecognitionError code) s))
      as (b & t & k & ->).
    by apply onerror_other.
Qed.

Lemma C5_onerror_classification_witness :
  transcriptionMethod
    (hooks (run [SelectMethod web_api; ClickToggle MediaGranted any_type]
              (step (RecognitionError "network") live_capturing)))
  = aiml.
Proof.
  apply (C5_onerror_classification "network" live_capturing).
  by left.
Defined.

(** ** Transcription calls *)

(** [transcribeWithWhisper] is its part before the [await] followed by
    its part after it. *)
Lemma transcribeWithWhisper_split (audioBlob : Blob) (o : FetchOutcome)
    (s : Session) :
  transcribeWithWhisper audioBlob o s
  = transcribe_resume o (final (transcribe_before_await audioBlob s)).
Proof. done. Qed.

(** The part after the [await] always returns, with the updates of the
    [finally] block made; the error message is set exactly when the call
    was rejected, and of the refs and the browser only the console can
    differ. Once rendered, the hooks are those that [settle_hooks]
    describes. *)
Lemma transcribe_resume_returns (o : FetchOutcome) (s : Session) :
  ∃ s', transcribe_resume o s = Normal (render_of o) s'
        ∧ hooks (rendered s (Normal (render_of o) s'))
          = hooks (settle_hooks o s)
        ∧ refs s' = refs s
        ∧ mediaStreams (browser s') = mediaStreams (browser s)
        ∧ mediaRecorders (browser s') = mediaRecorders (browser s)
        ∧ fetches (browser s') = fetches (browser s)
        ∧ clipboard (browser s') = clipboard (browser s)
        ∧ autoCopyTimer (browser s') = autoCopyTimer (browser s)
        ∧ isTranscribing (hooks s') = false
        ∧ justStoppedRecording (hooks s') = true
        ∧ error (hooks s')
          = match call_result o with
            | Rejected msg => "Transcription error: " +:+ msg
            | _ => error (hooks s)
            end.
Proof.
  unfold render_of, settle_hooks, transcribe_resume, transcribe_after_await,
    try_finally, try_catch, transcribe_finally, transcribe_catch, throw,
    mbind, M_bind, bind, exec, mret, M_ret, ret.
  destruct o as [e|[] [e| |text err]]; cbn;
    try (eexists; split_and!; reflexivity).
  - eexists; split_and!; try reflexivity. cbn.
    destruct (transcript (hooks s)); by case_decide.
  - destruct err as [[|a m]|]; cbn; eexists; split_and!; reflexivity.
Qed.

Lemma rendered_frame (s : Session) (r : Render) (s' : Session) :
  refs (rendered s (Normal r s')) = refs s'
  ∧ browser (rendered s (Normal r s')) = browser s'.
Proof. by destruct r. Qed.

(** What the render after [ev] throws, in terms of [call_result]. *)
Lemma render_error_spec (q : nat) (pf : PendingFetch) (o : FetchOutcome)
    (s : Session) :
  fetches (browser s) !! q = Some pf → pf_settled pf = false →
  render_error (FetchSettled q o) s
  = match call_result o with
    | RenderFails e => Some e
    | _ => None
    end.
Proof.
  intros Hq Hpf. unfold render_error, onstop_settle. rewrite Hq, Hpf.
  cbn zeta. set (s1 := set_fetches _ s).
  destruct (transcribe_resume_returns o s1) as (s2 & Heq & _).
  unfold mbind, M_bind, bind. rewrite Heq. cbn.
  unfold render_of. by destruct (call_result o).
Qed.

Lemma render_error_settle (ev : Event) (s : Session) (e : JsError) :
  render_error ev s = Some e →
  ∃ q o pf, ev = FetchSettled q o ∧ fetches (browser s) !! q = Some pf
            ∧ pf_settled pf = false ∧ call_result o = RenderFails e.
Proof.
  destruct ev; try done. cbn.
  destruct (fetches (browser s) !! q) as [pf|] eqn:Hq; [|done].
  destruct (pf_settled pf) eqn:Hpf; [done|].
  intros He. exists q, o, pf. split_and!; try done.
  pose proof (render_error_spec q pf o s Hq Hpf) as H.
  cbn in H. rewrite Hq, Hpf in H. rewrite H in He.
  destruct (call_result o); congruence.
Qed.

Lemma render_effects_same_deps (old new : Session) :
  keydown_deps old = keydown_deps new →
  autoCopy_deps old = autoCopy_deps new →
  render_effects old new = new.
Proof.
  intros H1 H2. unfold render_effects.
  destruct (decide (keydown_deps old = keydown_deps new)); [|done].
  by destruct (decide (autoCopy_deps old = autoCopy_deps new)).
Qed.

Lemma settle_hooks_fetches (o : FetchOutcome) (l : list PendingFetch)
    (s : Session) :
  hooks (settle_hooks o (set_fetches l s)) = hooks (settle_hooks o s).
Proof. unfold settle_hooks. by destruct (call_result o). Qed.

(** What [onstop] does from the moment its call settles. *)
Lemma onstop_resume_spec (q : nat) (pf : PendingFetch) (o : FetchOutcome)
    (s : Session) :
  fetches (browser s) !! q = Some pf → pf_settled pf = false →
  let s' := onstop_resume q o s in
  hooks s' = hooks (settle_hooks o s)
  ∧ autoCopyTimer (browser s') = autoCopyTimer (browser s)
  ∧ clipboard (browser s') = clipboard (browser s)
  ∧ mediaStreams (browser s')
    = alter S (pf_stream pf) (mediaStreams (browser s))
  ∧ streamRef (refs s') = None
  ∧ mediaRecorders (browser s') = mediaRecorders (browser s)
  ∧ fetches (browser s')
    = <[q := mkPending (pf_body pf) (pf_stream pf) true]> (fetches (browser s)).
Proof.
  intros Hq Hpf. unfold onstop_resume, onstop_settle. rewrite Hq, Hpf.
  cbn zeta. set (s1 := set_fetches _ s).
  destruct (transcribe_resume_returns o s1)
    as (s2 & Heq & Hh & Hr & Hstreams & Hrecs & Hcalls & Hclip & Htimer & _).
  unfold mbind, M_bind, bind. rewrite Heq.
  rewrite <- (settle_hooks_fetches o
    (<[q := mkPending (pf_body pf) (pf_stream pf) true]> (fetches (browser s)))
    s).
  fold s1. rewrite <- Hh. subst s1.
  destruct (render_of o); cbn;
    rewrite ?Htimer, ?Hclip, ?Hstreams, ?Hrecs, ?Hcalls; done.
Qed.




(** ** The clear shortcut *)

(** C10: with an empty transcript the Ctrl+D key event changes nothing,
    so an interim text stays as it is, although [clearTranscript], when it
    runs, empties both the transcript and the interim text. *)
Theorem C10_ctrl_d_guarded (s : Session) (um : UserMediaOutcome)
    (ts : string → bool) (c : ClipboardOutcome) :
  transcript (hooks s) = "" →
  handleKeyDown ctrl_d um ts c s = s
  ∧ step (KeyDown ctrl_d um ts c) s = s
  ∧ interimTranscript (hooks (step (KeyDown ctrl_d um ts c) s))
    = interimTranscript (hooks s)
  ∧ (∀ s0, transcript (hooks (clearTranscript s0)) = ""
           ∧ interimTranscript (hooks (clearTranscript s0)) = "").
Proof.
  intros Hempty.
  assert (handleKeyDown ctrl_d um ts c s = s) as Hkey.
  { unfold handleKeyDown. rewrite Hempty. done. }
  assert (step (KeyDown ctrl_d um ts c) s = s) as Hstep.
  { unfold step. cbn [handle]. rewrite Hkey. apply render_effects_id. }
  split_and!; [done|done|by rewrite Hstep|done].
Qed.

Lemma C10_ctrl_d_guarded_witness :
  transcript (hooks interim_only) = ""
  ∧ interimTranscript (hooks interim_only) = "world"
  ∧ step (KeyDown ctrl_d MediaGranted any_type ClipboardWritten) interim_only
    = interim_only.
Proof.
  split_and!; [by vm_compute|by vm_compute|].
  apply (C10_ctrl_d_guarded interim_only). by vm_compute.
Defined.

(** Right after a handler raised [justStoppedRecording], the effect keeps
    it raised exactly when auto-copy is enabled and the transcript is not
    blank. *)
Lemma render_effects_trigger (old new : Session) :
  effect_settled old →
  autoCopyTimer (browser new) = autoCopyTimer (browser old)
  ∨ autoCopy_deps old ≠ autoCopy_deps new →
  justStoppedRecording (hooks new) = true →
  justStoppedRecording (hooks (render_effects old new))
  = autoCopyEnabled (hooks new) && Js.truthy (Js.trim (transcript (hooks new))).
Proof.
  intros Hold Hnew Hflag. unfold render_effects.
  set (new' := if decide (keydown_deps old = keydown_deps new) then new else _).
  assert (hooks new' = hooks new) as Hh by (subst new'; by case_decide).
  assert (autoCopy_deps new' = autoCopy_deps new) as Hdeps
    by (unfold autoCopy_deps; by rewrite Hh).
  destruct (decide (autoCopy_deps old = autoCopy_deps new')) as [Heq|_].
  - rewrite Hh, Hflag. rewrite Hdeps in Heq.
    destruct Hnew as [_|]; [|done].
    unfold effect_settled in Hold. unfold autoCopy_deps in Heq.
    injection Heq as Hf He Ht. rewrite Hf, Hflag in Hold. rewrite He, Ht in Hold.
    destruct Hold as (-> & -> & _). done.
  - clearbody new'. rewrite <-Hh. rewrite <-Hh in Hflag. clear -Hflag.
    destruct new' as [[? text ? ? ? ? ? ? ? ? ? enabled flag] ? []].
    cbn in Hflag. subst flag.
    unfold autoCopyEffect, autoCopy_deps. cbn -[Js.trim].
    destruct enabled, (Js.truthy (Js.trim text)) eqn:Htrim;
      cbn -[Js.trim]; case_decide; cbn -[Js.trim];
      rewrite ?Htrim; cbn -[Js.trim]; done.
Qed.






(** ** Auto-copy *)

Lemma copyToClipboard_failed (text : string) (e : JsError) (s : Session) :
  copyToClipboard text (ClipboardFailed e) s
  = Normal () (console_write ("Failed to copy to clipboard: " +:+ message e) s).
Proof. done. Qed.

Lemma copyToClipboard_written (text : string) (s : Session) :
  copyToClipboard text ClipboardWritten s
  = Normal () (setCopySuccess true (set_clipboard text s)).
Proof. done. Qed.

(** C8: in every reachable session
    - the auto-copy timeout has fired no more often than captures have
      completed;
    - a pending auto-copy timeout has the delay 500 ms and holds the
      current transcript, auto-copy is enabled and the transcript is not
      empty; it is the only thing that makes the auto-copy write, and a
      successful write puts the transcript on the clipboard;
    - when the clipboard write fails, the error message, the success
      mark, the transcript, the clipboard and the status are as before,
      and the failure is written to the console. *)
Theorem C8_auto_copy_debounced (p : ProbeOutcome) (evs : list Event) :
  let s := run evs (mount p) in
  count_events is_auto_copy evs (mount p)
  ≤ count_events is_completion evs (mount p)
  ∧ (∀ d text, autoCopyTimer (browser s) = Some (d, text) →
       d = 500 ∧ text = transcript (hooks s)
       ∧ autoCopyEnabled (hooks s) = true ∧ transcript (hooks s) ≠ ""
       ∧ clipboard (browser (step (AutoCopyTimeout ClipboardWritten) s))
         = transcript (hooks s))
  ∧ (autoCopyTimer (browser s) = None →
     ∀ c, step (AutoCopyTimeout c) s = s)
  ∧ (∀ e, let s' := step (AutoCopyTimeout (ClipboardFailed e)) s in
       error (hooks s') = error (hooks s)
       ∧ copySuccess (hooks s') = copySuccess (hooks s)
       ∧ transcript (hooks s') = transcript (hooks s)
       ∧ clipboard (browser s') = clipboard (browser s)
       ∧ status s' = status s
       ∧ (is_Some (autoCopyTimer (browser s)) →
          console (browser s')
          = console (browser s)
              ++ ["Failed to copy to clipboard: " +:+ message e])).
Proof.
  intros s.
  assert (effect_settled s) as Hs by apply run_settled, mount_settled.
  split_and!.
  - pose proof (auto_copies_bounded evs (mount p) (mount_settled p)) as H.
    assert (justStoppedRecording (hooks (mount p)) = false) as Hflag
      by by destruct p.
    rewrite Hflag in H. lia.
  - intros d text Ht. unfold effect_settled in Hs. rewrite Ht in Hs.
    destruct (justStoppedRecording (hooks s)); [|done].
    destruct Hs as (He & Htrim & [= -> ->]).
    split_and!; try done.
    + by apply truthy_spec, trim_truthy.
    + unfold step.
      destruct (render_effects_shape s
                  (handle (AutoCopyTimeout ClipboardWritten) s))
        as (b & t & k & ->).
      cbn. rewrite Ht. by rewrite copyToClipboard_written.
  - intros Ht c. unfold step. cbn [handle]. rewrite Ht.
    apply render_effects_id.
  - intros e s'. subst s'. unfold step.
    destruct (render_effects_shape s
                (handle (AutoCopyTimeout (ClipboardFailed e)) s))
      as (b & t & k & ->).
    unfold status. cbn.
    destruct (autoCopyTimer (browser s)) as [[d text]|].
    + rewrite copyToClipboard_failed. cbn. split_and!; done.
    + split_and!; done.
Qed.

Lemma C8_auto_copy_debounced_witness :
  let s := run batch_capture_events (mount ProbeRunning) in
  autoCopyTimer (browser s) = Some (500, "hello")
  ∧ clipboard (browser (step (AutoCopyTimeout ClipboardWritten) s)) = "hello".
Proof.
  split; [by vm_compute|].
  pose proof (C8_auto_copy_debounced ProbeRunning batch_capture_events) as H.
  destruct H as (_ & H & _).
  destruct (H 500 "hello") as (_ & _ & _ & _ & Hclip); [by vm_compute|].
  exact Hclip.
Defined.

(** ** Starting while a capture is running *)

Global Instance no_new_capture_preorder : PreOrder no_new_capture.
Proof.
  split; [by intros s|].
  intros a b c (?&?&?&?) (?&?&?&?).
  unfold no_new_capture. split_and!; [congruence|congruence|lia|lia].
Qed.

Lemma filter_alter_inactive (rid : nat) (l : list MediaRecorder) :
  length (filter (fun r => rec_state r = recording)
                 (alter (set_rec_state inactive) rid l))
  ≤ length (filter (fun r => rec_state r = recording) l).
Proof.
  revert rid. induction l as [|r l IH]; intros [|rid]; [done|done|..].
  - change (alter (set_rec_state inactive) 0 (r :: l))
      with (set_rec_state inactive r :: l).
    rewrite filter_cons_False by done.
    rewrite filter_cons. case_decide; cbn [length]; lia.
  - change (alter (set_rec_state inactive) (S rid) (r :: l))
      with (r :: alter (set_rec_state inactive) rid l).
    rewrite !filter_cons. specialize (IH rid).
    case_decide; cbn [length]; lia.
Qed.

Lemma stopTimer_no_new_capture s : no_new_capture s (stopTimer s).
Proof. unfold stopTimer. by case_match. Qed.

Lemma stopListening_no_new_capture s : no_new_capture s (stopListening s).
Proof.
  unfold stopListening, recognition_stop.
  case_match; apply stopTimer_no_new_capture.
Qed.

Lemma stopWhisperRecording_no_new_capture s :
  no_new_capture s (stopWhisperRecording s).
Proof.
  unfold stopWhisperRecording.
  etrans; [|apply stopTimer_no_new_capture].
  repeat case_match; try done.
  unfold no_new_capture, recorder_stop, recorders_recording. cbn.
  split_and!; [done|by rewrite length_alter|done|apply filter_alter_inactive].
Qed.

Lemma copyToClipboard_no_new_capture text c s :
  no_new_capture s (final (copyToClipboard text c s)).
Proof. by destruct c. Qed.

Lemma render_effects_no_new_capture old new :
  no_new_capture new (render_effects old new).
Proof. by destruct (render_effects_shape old new) as (b & t & k & ->). Qed.

(** C4, as stated, fails, for both backends: with Live capturing and Batch
    selected, the toggle starts a Batch recording next to the running
    recognizer; with Batch recording and Live selected, it starts the
    recognizer next to the running recorder. Neither start is refused, a
    new stream is acquired, and two captures are active. *)
Lemma C4_second_capture_counterexample :
  (let s := step (SelectMethod aiml) live_capturing in
   let s' := step (ClickToggle MediaGranted any_type) s in
   status s = Capturing ∧ active_captures s = 1
   ∧ isRecording (hooks s') = true ∧ error (hooks s') = ""
   ∧ length (mediaStreams (browser s'))
     = S (length (mediaStreams (browser s)))
   ∧ active_captures s' = 2)
  ∧ (let s := batch_recording_live_selected in
     let s' := step (ClickToggle MediaGranted any_type) s in
     status s = Capturing ∧ active_captures s = 1
     ∧ error (hooks s') = ""
     ∧ length (mediaStreams (browser s'))
       = S (length (mediaStreams (browser s)))
     ∧ active_captures s' = 2).
Proof. by vm_compute. Qed.

(** C4 (amended): while the session is transcribing, or while the active
    backend itself is capturing, the toggle (button or key) starts
    nothing: no stream is acquired, no recorder is made, and neither the
    recognizer nor a recorder is started; while transcribing the button
    does nothing at all. *)
Theorem C4_toggle_guard (s : Session) (ev : Event) :
  isTranscribing (hooks s) = true
  ∨ (transcriptionMethod (hooks s) = web_api ∧ isListening (hooks s) = true)
  ∨ (transcriptionMethod (hooks s) = aiml ∧ isRecording (hooks s) = true) →
  match ev with
  | ClickToggle _ _ | KeyDown _ _ _ _ => True
  | _ => False
  end →
  no_new_capture s (step ev s)
  ∧ (isTranscribing (hooks s) = true → ∀ um ts, step (ClickToggle um ts) s = s).
Proof.
  intros Hguard Hev. split.
  - unfold step. etrans; [|apply render_effects_no_new_capture].
    destruct ev; try done; cbn [handle].
    + unfold handleKeyDown.
      set (s1 := if _ && _ && _ then final (copyToClipboard _ _ _) else _).
      set (s2 := if _ && _ && _ then clearTranscript _ else _).
      assert (no_new_capture s s1) as H1.
      { subst s1. case_match; [apply copyToClipboard_no_new_capture|done]. }
      assert (no_new_capture s1 s2) as H2.
      { subst s2. by case_match. }
      etrans; [exact H1|]. etrans; [exact H2|].
      destruct (isTranscribing (hooks s)) eqn:Ht.
      { rewrite andb_false_r. done. }
      destruct Hguard as [?|[[-> ->]|[-> ->]]]; [done|..];
        case_match;
        first [apply stopListening_no_new_capture
              |apply stopWhisperRecording_no_new_capture|done].
    + destruct (isTranscribing (hooks s)) eqn:Ht; [done|].
      unfold toggleRecording.
      destruct Hguard as [?|[[-> ->]|[-> ->]]]; [done|..];
        first [apply stopListening_no_new_capture
              |apply stopWhisperRecording_no_new_capture].
  - intros Ht um ts. unfold step. cbn [handle]. rewrite Ht.
    apply render_effects_id.
Qed.

Lemma C4_toggle_guard_witness :
  no_new_capture live_capturing
    (step (ClickToggle MediaGranted any_type) live_capturing).
Proof.
  apply (C4_toggle_guard live_capturing (ClickToggle MediaGranted any_type)).
  - right. left. by vm_compute.
  - exact I.
Defined.

(** ** Releasing the microphone of a Batch capture *)

Lemma batch_start (s : Session) (ts : string → bool) :
  transcriptionMethod (hooks s) = aiml →
  isRecording (hooks s) = false →
  isTranscribing (hooks s) = false →
  ts (chosen_mimeType ts) = true →
  batch_recording (length (mediaStreams (browser s)))
    (length (mediaRecorders (browser s))) (length (fetches (browser s)))
    (chosen_mimeType ts)
    (step (ClickToggle MediaGranted ts) s).
Proof.
  intros Hm Hr Ht Hts. unfold batch_recording, step.
  destruct (render_effects_shape s (handle (ClickToggle MediaGranted ts) s))
    as (b & t & k & ->).
  cbn [handle]. rewrite Ht. unfold toggleRecording. rewrite Hm, Hr.
  unfold startWhisperRecording.
  change (pickMimeType ts supportedTypes _) with (chosen_mimeType ts).
  revert Hts. generalize (chosen_mimeType ts). intros mime Hts.
  unfold try_catch, mbind, M_bind, bind, exec, getUserMedia,
    new_MediaRecorder. cbn.
  rewrite Hts. cbn.
  split_and!; try done.
  - by rewrite lookup_app_r, Nat.sub_diag by lia.
  - rewrite list_lookup_alter_eq.
    by rewrite lookup_app_r, Nat.sub_diag by lia.
Qed.

Lemma batch_data (stream rid calls : nat) (mimeType : string)
    (datas : list Blob) (s : Session) :
  batch_recording stream rid calls mimeType s →
  batch_recording stream rid calls mimeType (run (RecorderData <$> datas) s).
Proof.
  revert s. induction datas as [|data datas IH]; intros s Hs; [done|].
  cbn [fmap list_fmap run]. apply IH. revert Hs.
  unfold batch_recording, step.
  destruct (render_effects_shape s (handle (RecorderData data) s))
    as (b & t & k & ->).
  cbn. unfold ondataavailable. by case_match.
Qed.

Lemma batch_stop (stream rid calls : nat) (mimeType : string)
    (um : UserMediaOutcome) (ts : string → bool) (s : Session) :
  batch_recording stream rid calls mimeType s →
  let s' := step (ClickToggle um ts) s in
  mediaStreams (browser s') !! stream = Some 0
  ∧ mediaRecorders (browser s') !! rid
    = Some (mkRecorder stream mimeType inactive false)
  ∧ length (fetches (browser s')) = calls
  ∧ isRecording (hooks s') = false.
Proof.
  intros (Hstream & Hrec & Href & Hcalls & Hr & Hm & Ht). unfold step.
  destruct (render_effects_shape s (handle (ClickToggle um ts) s))
    as (b & t & k & ->).
  cbn [handle]. rewrite Ht. unfold toggleRecording. rewrite Hm, Hr.
  unfold stopWhisperRecording. rewrite Href, Hrec. cbn.
  unfold stopTimer, recorder_stop.
  case_match; cbn; rewrite list_lookup_alter_eq, Hrec; done.
Qed.

(** Chunks delivered after the stop request leave the stopped recorder
    and its stream as they are. *)
Lemma batch_stopped_data (stream rid calls : nat) (mimeType : string)
    (datas : list Blob) (s : Session) :
  mediaStreams (browser s) !! stream = Some 0 →
  mediaRecorders (browser s) !! rid
  = Some (mkRecorder stream mimeType inactive false) →
  length (fetches (browser s)) = calls →
  let s' := run (RecorderData <$> datas) s in
  mediaStreams (browser s') !! stream = Some 0
  ∧ mediaRecorders (browser s') !! rid
    = Some (mkRecorder stream mimeType inactive false)
  ∧ length (fetches (browser s')) = calls.
Proof.
  revert s. induction datas as [|data datas IH]; intros s Hs Hr Hc; [done|].
  cbn [fmap list_fmap run]. apply IH; revert Hs Hr Hc; unfold step;
    destruct (render_effects_shape s (handle (RecorderData data) s))
      as (b & t & k & ->);
    cbn; unfold ondataavailable; by case_match.
Qed.




(** [mediaRecorder.onstop] as a whole returns on every outcome of the
    call, with the tracks of its stream stopped once more and [streamRef]
    cleared. *)
Lemma onstop_releases (stream : nat) (mimeType : string) (o : FetchOutcome)
    (s : Session) :
  ∃ s', onstop stream mimeType o s = Normal (render_of o) s'
        ∧ mediaStreams (browser s')
          = alter S stream (mediaStreams (browser s))
        ∧ streamRef (refs s') = None.
Proof.
  unfold onstop, mbind, M_bind, bind. rewrite transcribeWithWhisper_split.
  destruct (transcribe_resume_returns o
              (final (transcribe_before_await
                        (new_Blob (audioChunksRef (refs s)) mimeType) s)))
    as (s' & -> & _ & _ & Hstreams & _).
  eexists. split_and!; [reflexivity| |done].
  cbn. by rewrite Hstreams.
Qed.

(** *** No stream is released twice *)

Lemma count_app {A} (f : A → bool) (l1 l2 : list A) :
  count f (l1 ++ l2) = count f l1 + count f l2.
Proof. induction l1 as [|x l1 IH]; cbn; [done|]. rewrite IH. lia. Qed.

Lemma count_insert {A} (f : A → bool) (l : list A) (i : nat) (x y : A) :
  l !! i = Some x →
  count f (<[i:=y]> l) + (if f x then 1 else 0)
  = count f l + (if f y then 1 else 0).
Proof.
  revert i. induction l as [|z l IH]; intros [|i] Hi; try done.
  - injection Hi as ->. cbn. destruct (f x), (f y); lia.
  - simpl. specialize (IH i Hi). revert IH.
    destruct (f x), (f y), (f z); lia.
Qed.

Lemma count_alter {A} (f : A → bool) (g : A → A) (l : list A) (i : nat) :
  (∀ x, f (g x) = f x) → count f (alter g i l) = count f l.
Proof.
  intros Hg. revert i. induction l as [|z l IH]; intros [|i]; try done.
  - simpl. by rewrite Hg.
  - change (alter g (S i) (z :: l)) with (z :: alter g i l).
    simpl. by rewrite IH.
Qed.

Lemma stop_calls_app (streams : list nat) (i : nat) :
  stop_calls (streams ++ [0]) i = stop_calls streams i.
Proof.
  unfold stop_calls. destruct (decide (i < length streams)).
  - by rewrite lookup_app_l.
  - rewrite (lookup_ge_None_2 streams) by lia.
    destruct (decide (i = length streams)) as [->|].
    + by rewrite lookup_app_r, Nat.sub_diag by lia.
    + rewrite lookup_ge_None_2; [done|]. rewrite length_app. cbn. lia.
Qed.

Lemma stop_calls_alter (streams : list nat) (i j : nat) :
  stop_calls (alter S j streams) i
  = if decide (i = j ∧ j < length streams) then S (stop_calls streams i)
    else stop_calls streams i.
Proof.
  unfold stop_calls. case_decide as H.
  - destruct H as [-> H]. rewrite list_lookup_alter_eq.
    apply lookup_lt_is_Some_2 in H as [n ->]. done.
  - destruct (decide (i = j)) as [->|].
    + rewrite list_lookup_alter_eq.
      rewrite (lookup_ge_None_2 streams) by lia. done.
    + by rewrite list_lookup_alter_ne.
Qed.

(** [getUserMedia] adds a live stream. *)
Lemma tables_inv_stream streams recs calls :
  tables_inv streams recs calls → tables_inv (streams ++ [0]) recs calls.
Proof.
  intros H i. destruct (H i) as [H1 H2]. rewrite stop_calls_app.
  split; [done|]. rewrite length_app. intros ?. apply H2. lia.
Qed.

(** A recorder is made for the stream just acquired, and started. *)
Lemma tables_inv_recorder streams recs calls mimeType st :
  tables_inv streams recs calls →
  tables_inv (streams ++ [0])
    (alter (set_rec_state st) (length recs)
       (recs ++ [mkRecorder (length streams) mimeType inactive false]))
    calls.
Proof.
  intros H i. destruct (H i) as [H1 H2].
  rewrite stop_calls_app, count_alter, count_app by done.
  rewrite length_app. cbn.
  case_bool_decide as Hi.
  - subst i. specialize (H2 (reflexivity _)).
    unfold stop_calls in *. rewrite (lookup_ge_None_2 streams) in * by lia.
    cbn in *. split; lia.
  - split; [lia|]. intros ?. rewrite <-H2 by lia. lia.
Qed.

(** A recorder is started or stopped. *)
Lemma tables_inv_rec_state streams recs calls st rid :
  tables_inv streams recs calls →
  tables_inv streams (alter (set_rec_state st) rid recs) calls.
Proof. intros H i. by rewrite count_alter. Qed.

(** The [stop] event of a recorder hands its stream to a call. *)
Lemma tables_inv_handoff streams recs calls rid r body :
  recs !! rid = Some r → stop_fired r = false →
  tables_inv streams recs calls →
  tables_inv streams
    (<[rid := mkRecorder (rec_stream r) (rec_mimeType r) inactive true]> recs)
    (calls ++ [mkPending body (rec_stream r) false]).
Proof.
  intros Hrid Hr H i. destruct (H i) as [H1 H2].
  pose proof (count_insert (due_recorder i) recs rid r
    (mkRecorder (rec_stream r) (rec_mimeType r) inactive true) Hrid) as Hc.
  rewrite count_app. cbn.
  assert (due_recorder i r = bool_decide (rec_stream r = i)) as Hdue
    by (unfold due_recorder; by rewrite Hr).
  rewrite Hdue in Hc. cbn in Hc.
  case_bool_decide; split; try intros Hlen; try specialize (H2 Hlen); lia.
Qed.

(** A call settles: the tracks of its stream are stopped. *)
Lemma tables_inv_settle streams recs calls q p :
  calls !! q = Some p → pf_settled p = false →
  tables_inv streams recs calls →
  tables_inv (alter S (pf_stream p) streams) recs
    (<[q := mkPending (pf_body p) (pf_stream p) true]> calls).
Proof.
  intros Hq Hp H i. destruct (H i) as [H1 H2].
  pose proof (count_insert (due_call i) calls q p
    (mkPending (pf_body p) (pf_stream p) true) Hq) as Hc.
  rewrite stop_calls_alter, length_alter.
  assert (due_call i p = bool_decide (pf_stream p = i)) as Hdue
    by (unfold due_call; by rewrite Hp).
  rewrite Hdue in Hc. cbn in Hc.
  case_bool_decide as Hi.
  - subst i.
    destruct (decide (pf_stream p = pf_stream p ∧ _)) as [[_ Hlt]|Hge].
    + split; [lia|]. intros ?. lia.
    + assert (length streams ≤ pf_stream p) as Hlen by lia.
      specialize (H2 Hlen). lia.
  - rewrite decide_False by (intros [? _]; congruence).
    split; [lia|]. intros Hlen. specialize (H2 Hlen). lia.
Qed.

(** A relation between the sessions before and after a handler that
    - holds when the streams, the recorders and the calls are the same,
    - holds across the five operations that change them,
    holds across every handler. *)
Section TablesRelation.
Context (R : relation Session) `{!PreOrder R}.
Hypothesis R_same : ∀ s s',
  mediaStreams (browser s') = mediaStreams (browser s) →
  mediaRecorders (browser s') = mediaRecorders (browser s) →
  fetches (browser s') = fetches (browser s) →
  R s s'.
Hypothesis R_getUserMedia : ∀ um, preserves R (getUserMedia um).
Hypothesis R_startWhisperRecording :
  ∀ um ts, preserves R (startWhisperRecording um ts).
Hypothesis R_recorder_stop : ∀ rid s, R s (recorder_stop rid s).
Hypothesis R_onstop_begin : ∀ rid s, R s (onstop_begin rid s).
Hypothesis R_onstop_resume : ∀ q o s, R s (onstop_resume q o s).

Lemma writeText_tables text c : preserves R (writeText text c).
Proof. intros s. by destruct c; apply R_same. Qed.

Lemma recognition_set_lang_tables language :
  preserves R (recognition_set_lang language).
Proof. intros s. unfold recognition_set_lang. by case_match; apply R_same. Qed.

Lemma recognition_start_tables : preserves R recognition_start.
Proof.
  intros s. unfold recognition_start. by repeat case_match; apply R_same.
Qed.

Lemma stopTimer_tables s : R s (stopTimer s).
Proof. unfold stopTimer. by case_match; apply R_same. Qed.

Lemma startListening_tables sup language um :
  preserves R (startListening sup language um).
Proof.
  intros s. unfold startListening. case_match; [by apply R_same|].
  preserves_steps;
    auto using recognition_set_lang_tables, recognition_start_tables;
    by apply R_same.
Qed.

Lemma stopListening_tables s : R s (stopListening s).
Proof.
  unfold stopListening, recognition_stop. case_match; apply stopTimer_tables.
Qed.

Lemma stopWhisperRecording_tables s : R s (stopWhisperRecording s).
Proof.
  unfold stopWhisperRecording.
  set (s' := match mediaRecorderRef (refs s) with Some _ => _ | None => _ end).
  assert (R s s') as Hs'.
  { subst s'. repeat case_match; first [apply R_recorder_stop|reflexivity]. }
  etrans; [exact Hs'|]. etrans; [|apply stopTimer_tables]. by apply R_same.
Qed.

Lemma copyToClipboard_tables text c : preserves R (copyToClipboard text c).
Proof. intros s. by destruct c; apply R_same. Qed.

Lemma toggleRecording_tables sup language um ts s :
  R s (toggleRecording sup language um ts s).
Proof.
  unfold toggleRecording. repeat case_match;
    first [ apply stopListening_tables | apply stopWhisperRecording_tables
          | apply startListening_tables | apply R_startWhisperRecording ].
Qed.

Lemma handleKeyDown_tables event um ts c s :
  R s (handleKeyDown event um ts c s).
Proof.
  unfold handleKeyDown.
  set (s1 := if _ && _ && _ then final (copyToClipboard _ _ _) else _).
  set (s2 := if _ && _ && _ then clearTranscript _ else _).
  assert (R s s1) as H1.
  { subst s1. case_match; [apply copyToClipboard_tables|reflexivity]. }
  assert (R s1 s2) as H2.
  { subst s2. case_match; [by apply R_same|reflexivity]. }
  etrans; [exact H1|]. etrans; [exact H2|].
  repeat case_match;
    first [ apply stopListening_tables | apply stopWhisperRecording_tables
          | apply startListening_tables | apply R_startWhisperRecording
          | reflexivity ].
Qed.

Lemma handle_tables (ev : Event) (s : Session) : R s (handle ev s).
Proof.
  destruct ev; cbn [handle].
  - unfold handleTestError. by case_match; apply R_same.
  - by apply R_same.
  - by apply R_same.
  - unfold recognizer_ended, onend, stopTimer.
    by repeat case_match; apply R_same.
  - unfold onresult. by repeat case_match; apply R_same.
  - unfold onerror. by repeat case_match; apply R_same.
  - apply handleKeyDown_tables.
  - case_match; [reflexivity|apply toggleRecording_tables].
  - case_match; [apply copyToClipboard_tables|reflexivity].
  - by case_match; apply R_same.
  - by repeat case_match; apply R_same.
  - unfold speechEffect, recognition_stop. by repeat case_match; apply R_same.
  - by apply R_same.
  - by apply R_same.
  - by case_match; apply R_same.
  - destruct (autoCopyTimer (browser s)) as [[d text]|]; [|reflexivity].
    by destruct c; apply R_same.
  - by apply R_same.
  - unfold ondataavailable. by case_match; apply R_same.
  - apply R_onstop_begin.
  - apply R_onstop_resume.
Qed.

Lemma step_tables (ev : Event) (s : Session) : R s (step ev s).
Proof.
  unfold step. etrans; [apply handle_tables|].
  destruct (render_effects_shape s (handle ev s)) as (b & t & k & ->).
  by apply R_same.
Qed.
End TablesRelation.

Global Instance keeps_streams_inv_preorder : PreOrder keeps_streams_inv.
Proof.
  split; [by intros s Hs|]. intros a b c Hab Hbc Ha. by apply Hbc, Hab.
Qed.

Lemma keeps_tables (s s' : Session) :
  mediaStreams (browser s') = mediaStreams (browser s) →
  mediaRecorders (browser s') = mediaRecorders (browser s) →
  fetches (browser s') = fetches (browser s) →
  keeps_streams_inv s s'.
Proof. unfold keeps_streams_inv, streams_inv. by intros -> -> ->. Qed.

Lemma getUserMedia_keeps um : preserves keeps_streams_inv (getUserMedia um).
Proof.
  intros s. destruct um; [|by apply keeps_tables].
  intros Hs. by apply tables_inv_stream.
Qed.

Lemma startWhisperRecording_keeps um ts :
  preserves keeps_streams_inv (startWhisperRecording um ts).
Proof.
  intros s Hs. unfold startWhisperRecording, try_catch, mbind, M_bind, bind,
    exec, getUserMedia, new_MediaRecorder.
  destruct um as [|e]; [|done]. cbn.
  destruct (ts _); cbn.
  - by apply tables_inv_recorder.
  - by apply tables_inv_stream.
Qed.

Lemma recorder_stop_keeps rid s : keeps_streams_inv s (recorder_stop rid s).
Proof. intros Hs. by apply tables_inv_rec_state. Qed.

Lemma onstop_begin_keeps rid s : keeps_streams_inv s (onstop_begin rid s).
Proof.
  intros Hs. unfold onstop_begin.
  destruct (mediaRecorders (browser s) !! rid) as [r|] eqn:Hrid; [|done].
  destruct (rec_state r); [|done].
  destruct (stop_fired r) eqn:Hr; [done|].
  unfold transcribe_before_await, mbind, M_bind, bind, exec, mret, M_ret, ret.
  cbn. by apply tables_inv_handoff.
Qed.

Lemma onstop_resume_keeps q o s : keeps_streams_inv s (onstop_resume q o s).
Proof.
  intros Hs.
  destruct (fetches (browser s) !! q) as [p|] eqn:Hq;
    [|unfold onstop_resume; by rewrite Hq].
  destruct (pf_settled p) eqn:Hp;
    [unfold onstop_resume; by rewrite Hq, Hp|].
  destruct (onstop_resume_spec q p o s Hq Hp)
    as (_ & _ & _ & Hstreams & _ & Hrecs & Hcalls).
  unfold streams_inv. rewrite Hstreams, Hrecs, Hcalls.
  by apply tables_inv_settle.
Qed.

Lemma step_keeps (ev : Event) (s : Session) :
  streams_inv s → streams_inv (step ev s).
Proof.
  apply (step_tables keeps_streams_inv);
    auto using keeps_tables, getUserMedia_keeps, startWhisperRecording_keeps,
      recorder_stop_keeps, onstop_begin_keeps, onstop_resume_keeps.
Qed.

Lemma mount_streams_inv (p : ProbeOutcome) : streams_inv (mount p).
Proof.
  assert (mediaStreams (browser (mount p)) = []
          ∧ mediaRecorders (browser (mount p)) = []
          ∧ fetches (browser (mount p)) = []) as (Hs & Hr & Hc)
    by (destruct p; by vm_compute).
  unfold streams_inv. rewrite Hs, Hr, Hc. intros i.
  unfold stop_calls. rewrite lookup_nil. cbn. split; [lia|done].
Qed.


Global Instance streams_grow_preorder : PreOrder streams_grow.
Proof.
  split; [intros s i n; eauto|].
  intros a b c Hab Hbc i n Hi.
  destruct (Hab i n Hi) as (n' & Hi' & ?).
  destruct (Hbc i n' Hi') as (n'' & Hi'' & ?).
  exists n''. split; [done|lia].
Qed.










Lemma run_app (evs1 evs2 : list Event) (s : Session) :
  run (evs1 ++ evs2) s = run evs2 (run evs1 s).
Proof. revert s. induction evs1 as [|ev evs1 IH]; intros s; [done|apply IH]. Qed.



(** * Further properties of the code *)

(** ** [formatTime] *)

Lemma split_colon_digits (d : Decimal.uint) (r : string) :
  split_colon (DecimalString.NilEmpty.string_of_uint d +:+ String ":" r)
  = (DecimalString.NilEmpty.string_of_uint d, r).
Proof.
  induction d as [|d IH|d IH|d IH|d IH|d IH|d IH|d IH|d IH|d IH|d IH];
    [done|..];
    cbn [DecimalString.NilEmpty.string_of_uint];
    match goal with
    | |- split_colon (String ?c ?a +:+ ?b) = _ =>
        change (String c a +:+ b) with (String c (a +:+ b))
    end;
    cbn [split_colon]; change (Ascii.eqb _ ":") with false;
    cbn iota; by rewrite IH.
Qed.

Lemma split_colon_zeros (k : nat) (x : string) :
  split_colon (repeat_char k "0" +:+ x)
  = (repeat_char k "0" +:+ (split_colon x).1, (split_colon x).2).
Proof.
  induction k as [|k IH].
  { change (split_colon x = ((split_colon x).1, (split_colon x).2)).
    by destruct (split_colon x). }
  cbn [repeat_char].
  change (String "0" (repeat_char k "0") +:+ x)
    with (String "0" (repeat_char k "0" +:+ x)).
  cbn [split_colon]. change (Ascii.eqb "0" ":") with false. cbn iota.
  by rewrite IH.
Qed.

Lemma parse_nat_zeros (k n : nat) :
  parse_nat (repeat_char k "0" +:+ toString n) = Some n.
Proof.
  unfold parse_nat, toString. induction k as [|k IH].
  - change (repeat_char 0 "0" +:+ ?x) with x.
    rewrite DecimalString.NilEmpty.usu. cbn.
    by rewrite DecimalNat.Unsigned.of_to.
  - cbn [repeat_char].
    change (String "0" (repeat_char k "0") +:+ ?x)
      with (String "0" (repeat_char k "0" +:+ x)).
    cbn [DecimalString.NilEmpty.uint_of_string].
    destruct (DecimalString.NilEmpty.uint_of_string _) as [d|]; [|done].
    cbn in *. by injection IH as <-.
Qed.

Lemma append_cons (c : ascii) (a b : string) :
  String c a +:+ b = String c (a +:+ b).
Proof. done. Qed.

Lemma append_nil_l (a : string) : "" +:+ a = a.
Proof. done. Qed.

Lemma split_colon_toString (n : nat) (r : string) :
  split_colon (toString n +:+ String ":" r) = (toString n, r).
Proof. apply split_colon_digits. Qed.

Lemma parseTime_padded (m r : nat) :
  parseTime (padStart 2 "0" (toString m) +:+ ":"
               +:+ padStart 2 "0" (toString r))
  = Some (m * 60 + r).
Proof.
  unfold parseTime, padStart.
  rewrite append_assoc, split_colon_zeros, append_cons, append_nil_l.
  rewrite split_colon_toString. cbn [fst snd].
  rewrite !parse_nat_zeros. done.
Qed.

(** X1: a shown time reads back as the seconds it was made from, for
    every number of seconds; two different times are never shown alike. *)
Theorem X1_formatTime_roundtrip :
  (∀ seconds, parseTime (formatTime seconds) = Some seconds)
  ∧ (∀ a b, formatTime a = formatTime b → a = b).
Proof.
  assert (∀ seconds, parseTime (formatTime seconds) = Some seconds) as Hrt.
  { intros seconds. unfold formatTime. cbv zeta. rewrite parseTime_padded.
    f_equal. pose proof (Nat.div_mod_eq seconds 60). lia. }
  split; [done|].
  intros a b Hab. pose proof (Hrt a) as Ha. rewrite Hab, Hrt in Ha.
  by injection Ha.
Qed.

Lemma pad2_length (k : nat) :
  k < 100 → String.length (padStart 2 "0" (toString k)) = 2.
Proof.
  intros Hk.
  do 100 (destruct k as [|k]; [reflexivity|]). lia.
Qed.

(** X2: the seconds are always shown with two digits, and below one
    hundred minutes the time is five characters long, the colon in the
    middle. *)
Theorem X2_formatTime_shape (seconds : nat) :
  String.length (split_colon (formatTime seconds)).2 = 2
  ∧ (seconds < 100 * 60 →
     String.length (formatTime seconds) = 5
     ∧ String.get 2 (formatTime seconds) = Some ":"%char).
Proof.
  assert (seconds mod 60 < 100) as Hs
    by (pose proof (Nat.mod_upper_bound seconds 60); lia).
  apply pad2_length in Hs.
  split.
  - unfold formatTime. cbv zeta.
    unfold padStart at 1.
    rewrite append_assoc, split_colon_zeros, append_cons, append_nil_l.
    by rewrite split_colon_toString.
  - intros Hlt.
    assert (seconds / 60 < 100) as Hm
      by (apply Nat.Div0.div_lt_upper_bound; lia).
    pose proof (pad2_length _ Hm) as Hlm.
    unfold formatTime. cbv zeta.
    destruct (padStart 2 "0" (toString (seconds / 60))) as [|c1 [|c2 [|? ?]]];
      try done.
    rewrite !append_cons, !append_nil_l.
    split; [|done]. cbn [String.length]. by rewrite Hs.
Qed.

Lemma X2_formatTime_shape_witness :
  String.length (formatTime 125) = 5
  ∧ String.get 2 (formatTime 125) = Some ":"%char.
Proof. apply (X2_formatTime_shape 125). lia. Defined.

(** ** The recording timer *)

Lemma step_tick (s : Session) : step TimerTick s = handle TimerTick s.
Proof.
  unfold step, render_effects. cbn [handle].
  destruct (intervals (browser s)); repeat case_decide; done.
Qed.

Lemma run_ticks_running (n : nat) (s : Session) :
  intervals (browser s) ≠ [] →
  run (ticks n) s = updRecordingTime (fun prev => prev + n) s.
Proof.
  revert s. induction n as [|n IH]; intros s Hs.
  - destruct s as [[] ? ?]. unfold updRecordingTime, with_hooks. cbn.
    by rewrite Nat.add_0_r.
  - cbn [ticks replicate run]. rewrite step_tick. cbn [handle].
    destruct (intervals (browser s)) eqn:Hi; [done|].
    fold (ticks n). rewrite IH by (cbn; by rewrite Hi).
    destruct s as [[] ? ?]. unfold updRecordingTime, with_hooks. cbn.
    by rewrite <-Nat.add_assoc.
Qed.

Lemma run_ticks_stopped (n : nat) (s : Session) :
  intervals (browser s) = [] → run (ticks n) s = s.
Proof.
  intros Hs. induction n as [|n IH]; [done|].
  cbn [ticks replicate run]. rewrite step_tick. cbn [handle].
  by rewrite Hs.
Qed.

(** X3: with no interval running before, the recording time counts
    exactly the ticks between [startTimer] and [stopTimer]: it restarts
    from 0, goes up by one per tick, and ticks after the stop are not
    counted, since the stop leaves no interval running. *)
Theorem X3_timer_counts_ticks (s : Session) (n m : nat) :
  intervals (browser s) = [] →
  let stopped := stopTimer (run (ticks n) (startTimer s)) in
  recordingTime (hooks (run (ticks n) (startTimer s))) = n
  ∧ intervals (browser stopped) = []
  ∧ timerRef (refs stopped) = None
  ∧ recordingTime (hooks (run (ticks m) stopped)) = n.
Proof.
  intros Hs stopped. subst stopped.
  rewrite run_ticks_running by (unfold startTimer; cbn; by rewrite Hs).
  assert (intervals (browser (stopTimer (updRecordingTime
            (fun prev => prev + n) (startTimer s)))) = []) as Hstop.
  { unfold stopTimer, startTimer. cbn. rewrite Hs. cbn.
    by rewrite decide_False by (intros H; by apply H). }
  rewrite run_ticks_stopped by done.
  split_and!; [done|done|done|done].
Qed.

Lemma X3_timer_counts_ticks_witness :
  recordingTime
    (hooks (run (ticks 7) (stopTimer (run (ticks 5) (startTimer initial)))))
  = 5.
Proof. by apply (X3_timer_counts_ticks initial 5 7). Defined.

(** ** The capability probe *)

Lemma handle_supported (ev : Event) (s : Session) :
  unsupported_is_batch s → unsupported_is_batch (handle ev s).
Proof.
  unfold unsupported_is_batch.
  destruct ev;
    try (match goal with
         | |- context [handle ?e s] =>
             by destruct (controls_quiet e s I) as (-> & -> & _)
         end);
    unfold_handlers; repeat case_match; cbn; try done;
    intros Hs Hsup;
    first [ by apply Hs | congruence | specialize (Hs Hsup); congruence
          | simplify_eq/=; first [by apply Hs | congruence] ].
Qed.

Lemma step_supported (ev : Event) (s : Session) :
  unsupported_is_batch s → unsupported_is_batch (step ev s).
Proof.
  intros Hs%(handle_supported ev). revert Hs.
  unfold unsupported_is_batch, step.
  by destruct (render_effects_shape s (handle ev s)) as (b & t & k & ->).
Qed.

(** X4: in every reachable session, if Live is marked unavailable then
    Batch is the active backend: the disabled Web Speech radio is never
    the selected one. *)
Theorem X4_unsupported_is_batch (p : ProbeOutcome) (evs : list Event) :
  unsupported_is_batch (run evs (mount p)).
Proof.
  assert (unsupported_is_batch (mount p)) as H by by destruct p.
  revert H. generalize (mount p).
  induction evs as [|ev evs IH]; intros s Hs; [done|].
  cbn. by apply IH, step_supported.
Qed.

Lemma step_probe_error_other (code : string) (s : Session) :
  code ≠ "network" → code ≠ "service-not-allowed" →
  step (ProbeError code) s = s.
Proof.
  intros H1 H2. unfold step. cbn [handle]. unfold handleTestError.
  rewrite !seq_decide, !bool_decide_eq_false_2 by done. cbn.
  apply render_effects_id.
Qed.

(** X5: every way the capability probe can fail (no recognizer
    constructor, the test start throwing, the test reporting ["network"]
    or ["service-not-allowed"], the 3 s timeout) marks Live unavailable
    and selects Batch, and Batch stays selected through every later
    event; a test error with any other code changes nothing. *)
Theorem X5_probe_failure_forces_batch (evs : list Event) :
  (∀ p, probe_failed p = true → capability_lost (run evs (mount p)))
  ∧ (∀ s, capability_lost (run evs (step ProbeTimeout s)))
  ∧ (∀ s code, code = "network" ∨ code = "service-not-allowed" →
       capability_lost (run evs (step (ProbeError code) s)))
  ∧ (∀ s code, code ≠ "network" → code ≠ "service-not-allowed" →
       step (ProbeError code) s = s).
Proof.
  split_and!.
  - intros p Hp. apply run_capability_lost. by destruct p.
  - intros s. apply run_capability_lost, render_effects_capability_lost. done.
  - intros s code Hcode.
    apply run_capability_lost, render_effects_capability_lost.
    by destruct Hcode as [-> | ->].
  - intros s code. apply step_probe_error_other.
Qed.

Lemma X5_probe_failure_forces_batch_witness :
  capability_lost
    (run [SelectMethod web_api; ClickToggle MediaGranted any_type]
         (mount ProbeNoConstructor)).
Proof.
  exact (proj1 (X5_probe_failure_forces_batch
                  [SelectMethod web_api; ClickToggle MediaGranted any_type])
               ProbeNoConstructor eq_refl).
Defined.

(** ** Starting a capture *)

Lemma setError_twice (a b : string) (s : Session) :
  setError b (setError a s) = setError b s.
Proof. by destruct s as [[] ? ?]. Qed.

(** X6: [startListening] never throws. Without a recognizer, or when the
    render it belongs to has Live unavailable, it does nothing at all.
    When the microphone is refused it only shows the microphone-denied
    message: no timer, no stream, recognizer not started. When the
    microphone is granted and the recognizer is idle, the recognizer is
    started in the language of the calling render, the error is cleared
    and the timer runs from 0, while [isListening] waits for the
    recognizer's [start] event. When the recognizer has already been
    started, the same microphone-denied message is shown although the
    microphone was granted, and the timer that was started keeps running. *)
Theorem X6_startListening_outcomes (isSupported_ : bool)
    (selectedLanguage_ : string) (um : UserMediaOutcome) (s : Session) :
  ∃ s', startListening isSupported_ selectedLanguage_ um s = Normal () s'
    ∧ (recognitionRef (refs s) = None ∨ isSupported_ = false → s' = s)
    ∧ (∀ r e, recognitionRef (refs s) = Some r → isSupported_ = true →
         um = MediaDenied e → s' = setError microphone_denied s)
    ∧ (∀ r, recognitionRef (refs s) = Some r → isSupported_ = true →
         um = MediaGranted →
         mediaStreams (browser s') = mediaStreams (browser s) ++ [0]
         ∧ recordingTime (hooks s') = 0
         ∧ timerRef (refs s') = Some (nextInterval (browser s))
         ∧ nextInterval (browser s) ∈ intervals (browser s')
         ∧ isListening (hooks s') = isListening (hooks s)
         ∧ transcript (hooks s') = transcript (hooks s)
         ∧ recognitionRef (refs s')
           = Some (mkRecognition (continuous r) (interimResults r)
                     selectedLanguage_ true)
         ∧ error (hooks s')
           = if started r then microphone_denied else "").
Proof.
  unfold startListening.
  destruct (recognitionRef (refs s)) as [r|] eqn:Hr; cbn;
    [|eexists; split_and!; [done|done|done|done]].
  destruct isSupported_; cbn;
    [|eexists; split_and!; [done|done|done|done]].
  destruct um as [|e].
  - unfold try_catch, mbind, M_bind, bind, exec, getUserMedia,
      recognition_set_lang, recognition_start. cbn. rewrite Hr. cbn.
    destruct (started r) eqn:Hst; cbn;
      (eexists; split_and!; [done|by intros [|]|done|]);
      intros r' [= <-] _ _; rewrite Hst; cbn;
      (split_and!; try done; apply elem_of_app; right; left).
  - unfold try_catch, mbind, M_bind, bind, exec, getUserMedia. cbn.
    eexists; split_and!; [done|by intros [|]| |done].
    by intros r' e' _ _ _.
Qed.

Lemma X6_startListening_outcomes_witness :
  ∃ s', startListening true "pt-BR" MediaGranted (mount ProbeRunning)
        = Normal () s'
        ∧ error (hooks s') = ""
        ∧ recognitionRef (refs s')
          = Some (mkRecognition true true "pt-BR" true)
        ∧ recordingTime (hooks s') = 0.
Proof.
  destruct (X6_startListening_outcomes true "pt-BR" MediaGranted
              (mount ProbeRunning)) as (s' & Hrun & _ & _ & Hgranted).
  exists s'. split; [exact Hrun|].
  destruct (Hgranted (mkRecognition true true "en-US" false)
              eq_refl eq_refl eq_refl)
    as (_ & Htime & _ & _ & _ & _ & Href & Herr).
  by split_and!.
Defined.

(** *** The audio type of a Batch recording *)

Lemma pickMimeType_spec (ts : string → bool) (types : list string)
    (mimeType : string) :
  (∃ pre post, types = pre ++ pickMimeType ts types mimeType :: post
               ∧ none_supported ts pre
               ∧ ts (pickMimeType ts types mimeType) = true)
  ∨ (none_supported ts types ∧ pickMimeType ts types mimeType = mimeType).
Proof.
  unfold none_supported.
  induction types as [|type types IH]; cbn; [by right|].
  destruct (ts type) eqn:Htype.
  - left. by exists [], types.
  - destruct IH as [(pre & post & Heq & Hpre & Hts)|[Hall Heq]].
    + left. exists (type :: pre), post. split_and!; [|by constructor|done].
      cbn. by rewrite <- Heq.
    + right. split; [by constructor|done].
Qed.

Lemma chosen_mimeType_spec (ts : string → bool) :
  chosen_mimeType ts ∈ supportedTypes
  ∧ (ts (chosen_mimeType ts) = false ↔ none_supported ts supportedTypes).
Proof.
  unfold chosen_mimeType.
  destruct (pickMimeType_spec ts supportedTypes "audio/webm;codecs=opus")
    as [(pre & post & Heq & Hpre & Hts)|[Hall Heq]].
  - assert (pickMimeType ts supportedTypes "audio/webm;codecs=opus"
              ∈ supportedTypes) as Hin
      by (rewrite Heq at 2; apply elem_of_app; right; left).
    split; [done|].
    rewrite Hts. split; [done|]. intros Hall.
    unfold none_supported in Hall. rewrite Forall_forall in Hall.
    apply Hall in Hin. congruence.
  - rewrite Heq. split; [unfold supportedTypes; left|].
    split; [done|]. intros _.
    unfold none_supported in Hall. rewrite Forall_forall in Hall.
    apply Hall. unfold supportedTypes; left.
Qed.

(** X7: the loop over [supportedTypes] picks the first type of the list
    that the browser supports, whatever the list; when the browser
    supports none of them the initial value of [mimeType] is kept. For the
    list of the page this means: the recorder is constructed with a type
    the browser rejects exactly when none of the four types is supported,
    and then with ["audio/webm;codecs=opus"]. *)
Theorem X7_pickMimeType_first_supported (isTypeSupported : string → bool)
    (types : list string) (mimeType : string) :
  ((∃ pre post,
      types = pre ++ pickMimeType isTypeSupported types mimeType :: post
      ∧ none_supported isTypeSupported pre
      ∧ isTypeSupported (pickMimeType isTypeSupported types mimeType) = true)
   ∨ (none_supported isTypeSupported types
      ∧ pickMimeType isTypeSupported types mimeType = mimeType))
  ∧ chosen_mimeType isTypeSupported ∈ supportedTypes
  ∧ (isTypeSupported (chosen_mimeType isTypeSupported) = false
     ↔ none_supported isTypeSupported supportedTypes).
Proof.
  split; [apply pickMimeType_spec|apply chosen_mimeType_spec].
Qed.

(** X8: [startWhisperRecording] never throws, and when it fails nothing
    is recording. A refused microphone shows the reason and is logged,
    and nothing else changes. When the browser supports none of the four
    audio types the constructor of the recorder throws after the
    microphone was acquired: the error is shown, [isRecording] stays as it
    was and no recorder or timer exists, but the stream just acquired is
    still live and [streamRef] refers to it. *)
Theorem X8_startWhisperRecording_failures (um : UserMediaOutcome)
    (isTypeSupported : string → bool) (s : Session) :
  ∃ s', startWhisperRecording um isTypeSupported s = Normal () s'
    ∧ (∀ e, um = MediaDenied e →
         s' = console_write ("Microphone error: " +:+ message e)
                (setError ("Error accessing microphone: " +:+ message e) s))
    ∧ (um = MediaGranted →
       none_supported isTypeSupported supportedTypes →
       error (hooks s') = "Error accessing microphone: mimeType is not supported"
       ∧ isRecording (hooks s') = isRecording (hooks s)
       ∧ mediaRecorders (browser s') = mediaRecorders (browser s)
       ∧ mediaRecorderRef (refs s') = mediaRecorderRef (refs s)
       ∧ intervals (browser s') = intervals (browser s)
       ∧ mediaStreams (browser s') = mediaStreams (browser s) ++ [0]
       ∧ streamRef (refs s') = Some (length (mediaStreams (browser s)))).
Proof.
  unfold startWhisperRecording.
  change (pickMimeType isTypeSupported supportedTypes _)
    with (chosen_mimeType isTypeSupported).
  destruct (chosen_mimeType_spec isTypeSupported) as [_ Hchosen].
  revert Hchosen. generalize (chosen_mimeType isTypeSupported).
  intros mimeType Hchosen.
  destruct um as [|e].
  - unfold try_catch, mbind, M_bind, bind, exec, getUserMedia,
      new_MediaRecorder. cbn.
    destruct (isTypeSupported mimeType) eqn:Hts; cbn.
    + eexists. split_and!; [done|done|]. intros _ Hnone.
      apply Hchosen in Hnone. congruence.
    + eexists. split_and!; [done|done|]. intros _ _. by split_and!.
  - unfold try_catch, mbind, M_bind, bind, exec, getUserMedia. cbn.
    eexists. split_and!; [done| |done].
    intros e' [= <-]. by destruct s as [[] ? []].
Qed.

Lemma X8_startWhisperRecording_failures_witness :
  ∃ s', startWhisperRecording
          (MediaDenied (mkJsError "Permission denied")) any_type
          (mount ProbeNoConstructor) = Normal () s'
        ∧ error (hooks s') = "Error accessing microphone: Permission denied"
        ∧ mediaStreams (browser s') = [].
Proof.
  destruct (X8_startWhisperRecording_failures
              (MediaDenied (mkJsError "Permission denied")) any_type
              (mount ProbeNoConstructor)) as (s' & Hrun & Hdenied & _).
  exists s'. split; [exact Hrun|].
  by rewrite (Hdenied _ eq_refl).
Defined.

(** *** What a Batch capture uploads *)

Lemma extension_of_supportedTypes :
  extension_of "audio/webm;codecs=opus" = "webm"
  ∧ extension_of "audio/webm" = "webm"
  ∧ extension_of "audio/mp4" = "mp4"
  ∧ extension_of "audio/wav" = "wav".
Proof. by vm_compute. Qed.

Lemma batch_chunks (datas : list Blob) (s : Session) :
  audioChunksRef (refs (run (RecorderData <$> datas) s))
  = audioChunksRef (refs s) ++ kept_chunks datas.
Proof.
  revert s. induction datas as [|data datas IH]; intros s.
  { cbn. by rewrite app_nil_r. }
  cbn [fmap list_fmap run]. rewrite IH. unfold step, kept_chunks.
  destruct (render_effects_shape s (handle (RecorderData data) s))
    as (b & t & k & ->).
  rewrite filter_cons. cbn. unfold ondataavailable.
  destruct (Nat.ltb_spec 0 (blob_size data)); cbn.
  - rewrite decide_True by done. by rewrite <- app_assoc.
  - by rewrite decide_False by lia.
Qed.

Lemma batch_start_chunks (s : Session) (ts : string → bool) :
  transcriptionMethod (hooks s) = aiml →
  isRecording (hooks s) = false →
  isTranscribing (hooks s) = false →
  ts (chosen_mimeType ts) = true →
  audioChunksRef (refs (step (ClickToggle MediaGranted ts) s)) = [].
Proof.
  intros Hm Hr Ht Hts. unfold step.
  destruct (render_effects_shape s (handle (ClickToggle MediaGranted ts) s))
    as (b & t & k & ->).
  cbn [handle]. rewrite Ht. unfold toggleRecording. rewrite Hm, Hr.
  unfold startWhisperRecording.
  change (pickMimeType ts supportedTypes _) with (chosen_mimeType ts).
  revert Hts. generalize (chosen_mimeType ts). intros mime Hts.
  unfold try_catch, mbind, M_bind, bind, exec, getUserMedia,
    new_MediaRecorder. cbn.
  by rewrite Hts.
Qed.

Lemma batch_stop_chunks (stream rid calls : nat) (mimeType : string)
    (um : UserMediaOutcome) (ts : string → bool) (s : Session) :
  batch_recording stream rid calls mimeType s →
  audioChunksRef (refs (step (ClickToggle um ts) s)) = audioChunksRef (refs s).
Proof.
  intros (Hstream & Hrec & Href & Hcalls & Hr & Hm & Ht). unfold step.
  destruct (render_effects_shape s (handle (ClickToggle um ts) s))
    as (b & t & k & ->).
  cbn [handle]. rewrite Ht. unfold toggleRecording. rewrite Hm, Hr.
  unfold stopWhisperRecording. rewrite Href, Hrec. cbn.
  unfold stopTimer, recorder_stop. by case_match.
Qed.

Lemma batch_handoff_body (stream rid calls : nat) (mimeType : string)
    (s : Session) :
  mediaRecorders (browser s) !! rid
  = Some (mkRecorder stream mimeType inactive false) →
  length (fetches (browser s)) = calls →
  fetches (browser (step (RecorderStop rid) s)) !! calls
  = Some (mkPending
            (mkFormData (new_Blob (audioChunksRef (refs s)) mimeType)
                        ("recording." +:+ extension_of mimeType))
            stream false).
Proof.
  intros Hrec Hcalls. unfold step.
  destruct (render_effects_shape s (handle (RecorderStop rid) s))
    as (b & t & k & ->).
  cbn [handle]. unfold onstop_begin. rewrite Hrec.
  unfold transcribe_before_await, mbind, M_bind, bind, exec, mret, M_ret, ret.
  cbn. by rewrite lookup_app_r, Hcalls, Nat.sub_diag by lia.
Qed.

Lemma append_length (a b : string) :
  String.length (a +:+ b) = String.length a + String.length b.
Proof.
  induction a as [|c a IH]; [by rewrite append_nil_l|].
  rewrite append_cons. cbn. by rewrite IH.
Qed.

Lemma new_Blob_kept_chunks (datas : list Blob) (type : string) :
  new_Blob (kept_chunks datas) type = mkBlob (chunk_bytes datas) type.
Proof.
  unfold new_Blob, kept_chunks, chunk_bytes, join. f_equal.
  induction datas as [|data datas IH]; [done|].
  rewrite filter_cons. cbn [fmap list_fmap foldr]. rewrite <- IH.
  case_decide as Hsize; [done|].
  unfold blob_size in Hsize. destruct (blob_data data); [done|cbn in Hsize; lia].
Qed.

Lemma chunk_bytes_length (datas : list Blob) :
  String.length (chunk_bytes datas)
  = foldr (fun b n => blob_size b + n) 0 datas.
Proof.
  unfold chunk_bytes, join.
  induction datas as [|data datas IH]; [done|].
  cbn [fmap list_fmap foldr]. by rewrite append_length, IH.
Qed.

Lemma kept_chunks_app (datas datas' : list Blob) :
  kept_chunks datas ++ kept_chunks datas' = kept_chunks (datas ++ datas').
Proof. unfold kept_chunks. by rewrite filter_app. Qed.

(** X9: one Batch capture, from the toggle that starts it to the
    recorder's [stop] event, puts a new transcription call in flight.
    Its body is a single blob whose bytes are the bytes of the chunks the
    recorder delivered, before and after the stop request, in the order
    of delivery, so its size is the sum of their sizes; the blob has the
    audio type the recorder was constructed with, and the file name is
    ["recording."] followed by ["webm"], ["mp4"] or ["wav"]: the ["ogg"]
    extension is never used for a recording made by the page. *)
Theorem X9_batch_upload (s : Session) (ts ts' : string → bool)
    (datas datas' : list Blob) (um : UserMediaOutcome) :
  transcriptionMethod (hooks s) = aiml →
  isRecording (hooks s) = false →
  isTranscribing (hooks s) = false →
  ts (chosen_mimeType ts) = true →
  let rid := length (mediaRecorders (browser s)) in
  let blob := mkBlob (chunk_bytes (datas ++ datas')) (chosen_mimeType ts) in
  let s' := run (batch_capture ts datas um ts' datas' rid) s in
  fetches (browser s') !! length (fetches (browser s))
  = Some (mkPending
            (mkFormData blob
               ("recording." +:+ extension_of (chosen_mimeType ts)))
            (length (mediaStreams (browser s))) false)
  ∧ blob_size blob = foldr (fun b n => blob_size b + n) 0 (datas ++ datas')
  ∧ extension_of (chosen_mimeType ts) ∈ ["webm"; "mp4"; "wav"].
Proof.
  intros Hm Hr Ht Hts rid blob s'. split_and!.
  - subst s' rid blob. unfold batch_capture. cbn [run]. rewrite run_app.
    cbn [run]. rewrite run_app. cbn [run].
    pose proof (batch_start s ts Hm Hr Ht Hts) as Hstart.
    pose proof (batch_start_chunks s ts Hm Hr Ht Hts) as Hchunks.
    set (s1 := step (ClickToggle MediaGranted ts) s) in *.
    pose proof (batch_data _ _ _ _ datas s1 Hstart) as Hdata.
    pose proof (batch_chunks datas s1) as Hchunks2.
    rewrite Hchunks in Hchunks2. cbn [app] in Hchunks2.
    set (s2 := run (RecorderData <$> datas) s1) in *.
    destruct (batch_stop _ _ _ _ um ts' s2 Hdata) as (Hs & Hrec & Hcalls & _).
    pose proof (batch_stop_chunks _ _ _ _ um ts' s2 Hdata) as Hchunks3.
    set (s3 := step (ClickToggle um ts') s2) in *.
    destruct (batch_stopped_data _ _ _ _ datas' s3 Hs Hrec Hcalls)
      as (_ & Hrec' & Hcalls').
    pose proof (batch_chunks datas' s3) as Hchunks4.
    set (s4 := run (RecorderData <$> datas') s3) in *.
    rewrite (batch_handoff_body _ _ _ _ s4 Hrec' Hcalls').
    rewrite Hchunks4, Hchunks3, Hchunks2, kept_chunks_app.
    by rewrite new_Blob_kept_chunks.
  - apply chunk_bytes_length.
  - destruct extension_of_supportedTypes as (E1 & E2 & E3 & E4).
    destruct (chosen_mimeType_spec ts) as [Hin _].
    unfold supportedTypes in Hin.
    rewrite !elem_of_cons, elem_of_nil in Hin.
    destruct Hin as [-> | [-> | [-> | [-> | []]]]].
    + rewrite E1. left.
    + rewrite E2. left.
    + rewrite E3. right; left.
    + rewrite E4. right; right; left.
Qed.

Lemma X9_batch_upload_witness :
  let s := step (SelectMethod aiml) (mount ProbeRunning) in
  let datas := [mkBlob "" "audio/webm"] in
  let datas' := [mkBlob "Opus" "audio/webm"; mkBlob "Head" "audio/webm"] in
  let rid := length (mediaRecorders (browser s)) in
  let s' := run (batch_capture any_type datas MediaGranted any_type
                               datas' rid) s in
  fetches (browser s') !! length (fetches (browser s))
  = Some (mkPending
            (mkFormData (mkBlob "OpusHead" "audio/webm;codecs=opus")
                        "recording.webm")
            (length (mediaStreams (browser s))) false).
Proof.
  intros s datas datas' rid s'.
  destruct (X9_batch_upload s any_type any_type datas datas' MediaGranted
              eq_refl eq_refl eq_refl eq_refl) as (Hcall & _).
  exact Hcall.
Defined.

(** ** The end of a Live capture *)

Lemma stopTimer_cleared (s : Session) (id : nat) :
  timerRef (refs s) = Some id → id ∉ intervals (browser (stopTimer s)).
Proof.
  intros H. unfold stopTimer. rewrite H. cbn.
  rewrite list_elem_of_filter. by intros [? _].
Qed.

(** X10: when the recognizer ends, listening stops, the interim text on
    display is dropped without being added to the transcript, the timer
    is cleared, and the recognizer can be started again. The auto-copy
    timeout of 500 ms is pending afterwards exactly when auto-copy is
    enabled and the transcript is not blank, and it carries the
    transcript as it is then. *)
Theorem X10_recognition_end (s : Session) :
  effect_settled s →
  let s' := step RecognitionEnd s in
  isListening (hooks s') = false
  ∧ textareaValue s' = transcript (hooks s)
  ∧ timerRef (refs s') = None
  ∧ (∀ id, timerRef (refs s) = Some id → id ∉ intervals (browser s'))
  ∧ recognizer_open s' = 0
  ∧ autoCopyTimer (browser s')
    = if autoCopyEnabled (hooks s)
         && Js.truthy (Js.trim (transcript (hooks s)))
      then Some (500, transcript (hooks s)) else None.
Proof.
  intros Hs s'.
  assert (effect_settled s') as Hs' by by apply step_settled.
  assert (justStoppedRecording (hooks s')
          = autoCopyEnabled (hooks s)
            && Js.truthy (Js.trim (transcript (hooks s)))) as Hflag.
  { subst s'. unfold step. rewrite render_effects_trigger; [|done| |].
    - cbn [handle]. unfold onend, recognizer_ended, stopTimer.
      by repeat case_match.
    - left. cbn [handle]. unfold onend, recognizer_ended, stopTimer.
      by repeat case_match.
    - cbn [handle]. unfold onend. done. }
  assert (hooks s' = hooks (setJustStoppedRecording
                              (justStoppedRecording (hooks s'))
                              (onend (recognizer_ended s)))
          ∧ refs s' = refs (onend (recognizer_ended s))
          ∧ intervals (browser s')
            = intervals (browser (onend (recognizer_ended s))))
    as (Hh & Hr & Hi).
  { subst s'. unfold step.
    destruct (render_effects_shape s (handle RecognitionEnd s))
      as (b & t & k & ->). done. }
  unfold effect_settled in Hs'. rewrite Hflag in Hs'.
  assert (transcript (hooks s') = transcript (hooks s)) as Ht.
  { rewrite Hh. unfold onend, recognizer_ended, stopTimer.
    by repeat case_match. }
  split_and!.
  - rewrite Hh. unfold onend, recognizer_ended, stopTimer.
    by repeat case_match.
  - unfold textareaValue. rewrite Ht, Hh.
    unfold onend, recognizer_ended, stopTimer.
    repeat case_match; cbn; apply append_nil_r.
  - rewrite Hr. unfold onend, recognizer_ended, stopTimer.
    by repeat case_match.
  - intros id Hid. rewrite Hi. unfold onend. cbn.
    apply stopTimer_cleared. unfold recognizer_ended.
    destruct (recognitionRef (refs s)); exact Hid.
  - unfold recognizer_open. rewrite Hr. clear.
    destruct s as [h [[r|] ? ? ? [id|]] b]; done.
  - destruct (autoCopyEnabled (hooks s)
              && Js.truthy (Js.trim (transcript (hooks s)))).
    + destruct Hs' as (_ & _ & ->). by rewrite Ht.
    + done.
Qed.

Lemma X10_recognition_end_witness :
  let s := interim_only in
  let s' := step RecognitionEnd s in
  isListening (hooks s') = false
  ∧ textareaValue s' = transcript (hooks s)
  ∧ timerRef (refs s') = None
  ∧ (∀ id, timerRef (refs s) = Some id → id ∉ intervals (browser s'))
  ∧ recognizer_open s' = 0
  ∧ autoCopyTimer (browser s')
    = if autoCopyEnabled (hooks s)
         && Js.truthy (Js.trim (transcript (hooks s)))
      then Some (500, transcript (hooks s)) else None.
Proof.
  apply (X10_recognition_end interim_only). by vm_compute.
Defined.

(** ** What can change the transcript *)

Global Instance same_text_preorder : PreOrder same_text.
Proof.
  split; [by intros s|].
  intros a b c [??] [??]. unfold same_text. split; congruence.
Qed.

Lemma startListening_same_text sup language um :
  preserves same_text (startListening sup language um).
Proof.
  intros s. unfold startListening. case_match; [done|].
  preserves_steps; try done.
  - intros s'. by destruct um.
  - intros s'. unfold recognition_set_lang. by case_match.
  - intros s'. unfold recognition_start. by repeat case_match.
Qed.

Lemma stopTimer_same_text s : same_text s (stopTimer s).
Proof. unfold stopTimer. by case_match. Qed.

Lemma stopListening_same_text s : same_text s (stopListening s).
Proof.
  unfold stopListening, recognition_stop.
  case_match; apply stopTimer_same_text.
Qed.

Lemma startWhisperRecording_same_text um ts :
  preserves same_text (startWhisperRecording um ts).
Proof.
  unfold startWhisperRecording.
  preserves_steps; try done.
  - intros s'. by destruct um.
  - intros s'. unfold new_MediaRecorder. by case_match.
Qed.

Lemma stopWhisperRecording_same_text s :
  same_text s (stopWhisperRecording s).
Proof.
  unfold stopWhisperRecording.
  etrans; [|apply stopTimer_same_text]. by repeat case_match.
Qed.

Lemma copyToClipboard_same_text text c :
  preserves same_text (copyToClipboard text c).
Proof.
  unfold copyToClipboard.
  preserves_steps; try done. intros s'. by destruct c.
Qed.

Lemma toggleRecording_same_text sup language um ts s :
  same_text s (toggleRecording sup language um ts s).
Proof.
  unfold toggleRecording. repeat case_match;
    first [ apply stopListening_same_text
          | apply stopWhisperRecording_same_text
          | apply startListening_same_text
          | apply startWhisperRecording_same_text ].
Qed.

Lemma handleKeyDown_same_text event um ts c s :
  ctrlKey event && Js.seq (key event) "d" = false →
  same_text s (handleKeyDown event um ts c s).
Proof.
  intros Hd. unfold handleKeyDown. rewrite Hd. cbn [andb].
  set (s1 := if _ && _ && _ then final (copyToClipboard _ _ _) else _).
  assert (same_text s s1) as H1.
  { subst s1. case_match; [apply copyToClipboard_same_text|done]. }
  etrans; [exact H1|].
  repeat case_match;
    first [ apply stopListening_same_text
          | apply stopWhisperRecording_same_text
          | apply startListening_same_text
          | apply startWhisperRecording_same_text
          | done ].
Qed.

Lemma handle_appends (ev : Event) (s : Session) :
  edits_transcript ev = false →
  ∃ added, transcript (hooks (handle ev s)) = transcript (hooks s) +:+ added.
Proof.
  assert (∀ s', transcript (hooks s') = transcript (hooks s) →
            ∃ added, transcript (hooks s') = transcript (hooks s) +:+ added)
    as Hsame.
  { intros s' ->. exists "". by rewrite append_nil_r. }
  intros Hev. destruct ev; try done; cbn [handle].
  - apply Hsame. unfold handleTestError. by case_match.
  - by apply Hsame.
  - by apply Hsame.
  - apply Hsame. unfold onend, recognizer_ended, stopTimer.
    by repeat case_match.
  - unfold onresult. destruct (onresult_loop _ _ _ _ _) as [f i].
    case_match; cbn; [|by apply Hsame]. by eexists.
  - apply Hsame. unfold onerror. by repeat case_match.
  - apply Hsame. by eapply proj1, handleKeyDown_same_text.
  - apply Hsame. case_match; [done|eapply proj1, toggleRecording_same_text].
  - apply Hsame. case_match; [eapply proj1, copyToClipboard_same_text|done].
  - apply Hsame. by repeat case_match.
  - apply Hsame. unfold speechEffect, recognition_stop. by repeat case_match.
  - by apply Hsame.
  - apply Hsame. by case_match.
  - apply Hsame. destruct (autoCopyTimer (browser s)) as [[d text]|]; [|done].
    by destruct c.
  - by apply Hsame.
  - apply Hsame. unfold ondataavailable. by case_match.
  - apply Hsame. unfold onstop_begin.
    destruct (mediaRecorders (browser s) !! rid) as [r|]; [|done].
    destruct (rec_state r); [|done]. by destruct (stop_fired r).
  - destruct (fetches (browser s) !! q) as [pf|] eqn:Hq;
      [|apply Hsame; unfold onstop_resume; by rewrite Hq].
    destruct (pf_settled pf) eqn:Hpf;
      [apply Hsame; unfold onstop_resume; by rewrite Hq, Hpf|].
    destruct (onstop_resume_spec q pf o s Hq Hpf) as (-> & _).
    unfold settle_hooks. destruct (call_result o) as [text|msg|e]; cbn.
    + case_decide as Hempty; [|by eexists].
      exists text. by rewrite Hempty.
    + exists "". by rewrite append_nil_r.
    + exists "". by rewrite append_nil_r.
Qed.

(** X11: recognition results and transcriptions only ever append to the
    transcript. Along any sequence of events without Clear, Ctrl+D and
    typing in the transcript area, and in which every render succeeds
    (no transcription is answered successfully with the body [null], at
    which the component is unmounted), the transcript at the start is a
    prefix of the transcript at the end: no toggle, copy, backend or
    language switch, error, timer or rejected transcription loses text. *)
Theorem X11_transcript_only_grows (evs : list Event) (s : Session) :
  Forall (fun ev => edits_transcript ev = false) evs →
  renders evs s = true →
  ∃ added,
    transcript (hooks (run evs s)) = transcript (hooks s) +:+ added.
Proof.
  intros Hevs _. revert s.
  induction Hevs as [|ev evs Hev _ IH]; intros s; cbn [run].
  { exists "". by rewrite append_nil_r. }
  destruct (IH (step ev s)) as [added2 ->].
  destruct (handle_appends ev s Hev) as [added1 Hadd].
  exists (added1 +:+ added2). rewrite <- append_assoc, <- Hadd.
  unfold step.
  by destruct (render_effects_shape s (handle ev s)) as (b & t & k & ->).
Qed.

Lemma X11_transcript_only_grows_witness :
  let evs := [FetchSettled 0 (FetchRejected (mkJsError "Failed to fetch"));
              SelectMethod web_api; RecognitionEnd] in
  ∃ added,
    transcript (hooks (run evs blank_processing))
    = transcript (hooks blank_processing) +:+ added.
Proof.
  apply (X11_transcript_only_grows
           [FetchSettled 0 (FetchRejected (mkJsError "Failed to fetch"));
            SelectMethod web_api; RecognitionEnd]).
  - by repeat constructor.
  - by vm_compute.
Defined.

(** ** Keyboard shortcuts *)

Lemma seq_false (a b : string) : a ≠ b → Js.seq a b = false.
Proof. intros H. by rewrite seq_decide, bool_decide_eq_false_2. Qed.

(** X12: the keyboard shortcuts do what the buttons do. Ctrl+C is the
    Copy button and Ctrl+D the Clear button, each inert on an empty
    transcript like the disabled button; Space is the toggle button,
    inert while a transcription is in progress, provided the registered
    key listener has the [isSupported] and [selectedLanguage] of the
    current render. *)
Theorem X12_shortcuts_are_buttons (s : Session) (um : UserMediaOutcome)
    (isTypeSupported : string → bool) (c : ClipboardOutcome)
    (keyCode : string) :
  (keyCode ≠ "Space" →
   step (KeyDown (mkKey true "c" keyCode) um isTypeSupported c) s
   = step (ClickCopy c) s
   ∧ step (KeyDown (mkKey true "d" keyCode) um isTypeSupported c) s
     = step ClickClear s)
  ∧ (keydownClosure (browser s)
     = (isSupported (hooks s), selectedLanguage (hooks s)) →
     step (KeyDown space um isTypeSupported c) s
     = step (ClickToggle um isTypeSupported) s).
Proof.
  split.
  - intros Hcode. unfold step. split; f_equal; cbn [handle];
      unfold handleKeyDown; cbv beta iota delta [ctrlKey key code];
      rewrite (seq_false keyCode "Space") by done; cbn; by case_match.
  - intros Hclosure. unfold step. f_equal. cbn [handle].
    unfold handleKeyDown, toggleRecording. cbn. rewrite Hclosure. cbn.
    by destruct (isTranscribing (hooks s)).
Qed.

Lemma X12_shortcuts_are_buttons_witness :
  step (KeyDown (mkKey true "c" "KeyC") MediaGranted any_type
          ClipboardWritten) live_with_interim
  = step (ClickCopy ClipboardWritten) live_with_interim
  ∧ step (KeyDown space MediaGranted any_type ClipboardWritten)
         live_with_interim
    = step (ClickToggle MediaGranted any_type) live_with_interim.
Proof.
  destruct (X12_shortcuts_are_buttons live_with_interim MediaGranted
              any_type ClipboardWritten "KeyC") as [Hctrl Hspace].
  split.
  - by apply Hctrl.
  - apply Hspace. by vm_compute.
Defined.

(** X13: the key listener is registered again only when [transcript],
    [isListening], [isRecording], [isTranscribing] or
    [transcriptionMethod] change, so after a change of language it still
    holds the previous one. With Live selected and idle, choosing another
    language makes a new recognizer for that language and leaves the
    listener as it was; the Space key then starts this recognizer in the
    language the listener remembers, while the toggle button starts it in
    the language just chosen. *)
Theorem X13_space_keeps_previous_language (s : Session) (language : string)
    (isTypeSupported : string → bool) (c : ClipboardOutcome) :
  transcriptionMethod (hooks s) = web_api →
  isListening (hooks s) = false →
  isTranscribing (hooks s) = false →
  language ≠ selectedLanguage (hooks s) →
  let s1 := step (SelectLanguage language ProbeRunning) s in
  selectedLanguage (hooks s1) = language
  ∧ recognizer_lang s1 = Some language
  ∧ keydownClosure (browser s1) = keydownClosure (browser s)
  ∧ ((keydownClosure (browser s)).1 = true →
     recognizer_lang (step (KeyDown space MediaGranted isTypeSupported c) s1)
     = Some (keydownClosure (browser s)).2)
  ∧ (isSupported (hooks s) = true →
     recognizer_lang (step (ClickToggle MediaGranted isTypeSupported) s1)
     = Some language).
Proof.
  intros Hm Hl Ht Hlang s1.
  assert (s1 = set_recognitionRef
                 (Some (mkRecognition true true language false))
                 (setSelectedLanguage language s)) as Hs1.
  { subst s1. unfold step. cbn [handle]. rewrite Hm.
    rewrite seq_false by done. cbn zeta.
    assert (∀ s', match recognitionRef (refs s') with
                  | Some _ => recognition_stop s'
                  | None => s'
                  end = s') as -> by (intros s'; by case_match).
    unfold speechEffect. by apply render_effects_same_deps. }
  assert (∀ ev, recognizer_lang (step ev s1)
                = recognizer_lang (handle ev s1)) as Hstep.
  { intros ev. unfold step.
    by destruct (render_effects_shape s1 (handle ev s1)) as (b & t & k & ->). }
  split_and!.
  - by rewrite Hs1.
  - by rewrite Hs1.
  - by rewrite Hs1.
  - intros Hsup. rewrite Hstep. cbn [handle]. unfold handleKeyDown.
    rewrite Hs1. cbn. rewrite Ht, Hm, Hl. cbn.
    unfold startListening. cbn. rewrite Hsup. cbn.
    unfold try_catch, mbind, M_bind, bind, exec, getUserMedia,
      recognition_set_lang, recognition_start. cbn. done.
  - intros Hsup. rewrite Hstep. cbn [handle]. unfold toggleRecording.
    rewrite Hs1. cbn. rewrite Ht, Hm, Hl, Hsup. cbn.
    unfold startListening. cbn.
    unfold try_catch, mbind, M_bind, bind, exec, getUserMedia,
      recognition_set_lang, recognition_start. cbn. done.
Qed.

Lemma X13_space_keeps_previous_language_witness :
  let s1 := step (SelectLanguage "pt-BR" ProbeRunning) (mount ProbeRunning) in
  recognizer_lang
    (step (KeyDown space MediaGranted any_type ClipboardWritten) s1)
  = Some "en-US"
  ∧ recognizer_lang (step (ClickToggle MediaGranted any_type) s1)
    = Some "pt-BR".
Proof.
  destruct (X13_space_keeps_previous_language (mount ProbeRunning) "pt-BR"
              any_type ClipboardWritten eq_refl eq_refl eq_refl)
    as (_ & _ & _ & Hspace & Hbutton); [done|].
  split; [by apply Hspace|by apply Hbutton].
Defined.

(** ** Stopping twice *)

Lemma stopTimer_idempotent (s : Session) :
  stopTimer (stopTimer s) = stopTimer s.
Proof.
  unfold stopTimer. destruct (timerRef (refs s)) eqn:H; [done|].
  by rewrite H.
Qed.

(** X14: stopping is idempotent. A second [stopTimer], [stopListening]
    or [stopWhisperRecording] changes nothing: the interval is cleared
    once, the recorder is stopped only while it is recording, and
    [isRecording] stays off. *)
Theorem X14_stop_is_idempotent (s : Session) :
  stopTimer (stopTimer s) = stopTimer s
  ∧ stopListening (stopListening s) = stopListening s
  ∧ stopWhisperRecording (stopWhisperRecording s) = stopWhisperRecording s.
Proof.
  split_and!.
  - apply stopTimer_idempotent.
  - unfold stopListening, recognition_stop.
    assert (∀ s', match recognitionRef (refs s') with
                  | Some _ => s'
                  | None => s'
                  end = s') as Hstop by (intros s'; by case_match).
    rewrite !Hstop. apply stopTimer_idempotent.
  - unfold stopWhisperRecording.
    destruct s as [h [rr mr ch sr tr] b].
    destruct mr as [rid|]; simpl.
    + destruct (mediaRecorders b !! rid) as [r|] eqn:Hrid; simpl.
      * destruct r as [st mt [] fired]; simpl.
        -- unfold stopTimer; destruct tr; simpl; rewrite Hrid; simpl;
             by destruct h.
        -- unfold stopTimer, recorder_stop; destruct tr; simpl;
             rewrite list_lookup_alter_eq, Hrid; simpl; by destruct h.
      * unfold stopTimer; destruct tr; simpl; rewrite Hrid; by destruct h.
    + unfold stopTimer; destruct tr; simpl; by destruct h.
Qed.

(** ** The transcription endpoint *)

(** X15: every request gets one of three answers. Status 200 carries the
    transcription, and only when OpenAI returned it for the file of the
    request; status 400 carries one of the two refusals, without details,
    and nothing was sent to OpenAI; status 500 carries the fixed failure
    message with details. The handler answers 500 whenever reading the
    form or the call to OpenAI fails. *)
Theorem X15_POST_answers (form : Route.FormDataOutcome)
    (openai : Route.File → Route.OpenAIOutcome) :
  let h := Route.POST form openai in
  match Route.body (Route.response h) with
  | Route.BodyTranscription t =>
      Route.status (Route.response h) = 200
      ∧ ∃ v, form = Route.FormParsed (Some v)
             ∧ Route.sent h = [Route.entry_file v]
             ∧ openai (Route.entry_file v) = Route.Transcribed t
  | Route.BodyError e details st =>
      (Route.status (Route.response h) = 400
       ∧ (e = no_audio ∨ e = too_large)
       ∧ details = None ∧ st = None ∧ Route.sent h = [])
      ∨ (Route.status (Route.response h) = 500
         ∧ e = whisper_failed ∧ is_Some details
         ∧ ((∃ err, form = Route.FormRejected err)
            ∨ (∃ file err, Route.sent h = [file]
                           ∧ openai file = Route.OpenAIRejected err)))
  end.
Proof.
  unfold Route.POST, Route.on_error.
  destruct form as [[v|]|err]; cbn -[Route.max_size Nat.ltb].
  - destruct (Route.entry_truthy v); cbn -[Route.max_size Nat.ltb];
      [|left; split_and!; auto].
    destruct (match Route.entry_size v with
              | Some n => Route.max_size <? n
              | None => false
              end); cbn; [left; split_and!; auto|].
    destruct (openai (Route.entry_file v)) as [t|err] eqn:Hopenai; cbn.
    + split; [done|]. by exists v.
    + right. split_and!; [done|done|by eexists|]. right. by eexists _, _.
  - left. split_and!; auto.
  - right. split_and!; [done|done|by eexists|]. left. by eexists.
Qed.

(** X16: the file of a request reaches OpenAI exactly when the entry is
    accepted, and then once and with the name, type and size it was
    uploaded with. A file is accepted up to and including
    [25 * 1024 * 1024] bytes; anything larger is refused with status 400. The size limit is a limit on files only: a non-empty text
    field under [audio] is accepted whatever its length. *)
Theorem X16_POST_size_limit (audio : option Route.FormDataEntryValue)
    (openai : Route.File → Route.OpenAIOutcome) :
  let h := Route.POST (Route.FormParsed audio) openai in
  Route.sent h
  = (if accepted audio then Route.entry_file <$> option_list audio else [])
  ∧ (∀ f, audio = Some (Route.EntryFile f) →
          Route.entry_file (Route.EntryFile f) = f
          ∧ accepted audio = bool_decide (Route.size f ≤ Route.max_size)
          ∧ (Route.max_size < Route.size f →
             Route.response h
             = Route.mkResponse 400 (Route.BodyError too_large None None)))
  ∧ (∀ v, audio = Some (Route.EntryString v) →
          accepted audio = Js.truthy v).
Proof.
  split_and!.
  - unfold Route.POST, Route.on_error, accepted.
    destruct audio as [v|]; [|done]. cbn [option_list fmap list_fmap].
    destruct (Route.entry_truthy v); [|done]. cbn [negb andb].
    destruct (Route.entry_size v) as [n|].
    + destruct (Nat.ltb_spec Route.max_size n), (Nat.leb_spec n Route.max_size);
        try lia; [done|].
      by destruct (openai (Route.entry_file v)).
    + by destruct (openai (Route.entry_file v)).
  - intros f ->. split_and!.
    + by destruct f.
    + unfold accepted. cbn [Route.entry_truthy Route.entry_size andb].
      destruct (Nat.leb_spec (Route.size f) Route.max_size).
      * by rewrite bool_decide_eq_true_2.
      * by rewrite bool_decide_eq_false_2 by lia.
    + intros Hsize. unfold Route.POST.
      cbn [Route.entry_truthy Route.entry_size negb].
      destruct (Nat.ltb_spec Route.max_size (Route.size f)); [done|lia].
  - intros v ->. unfold accepted. cbn [Route.entry_truthy Route.entry_size].
    apply andb_true_r.
Qed.

Lemma X16_POST_size_limit_witness :
  Route.response
    (Route.POST
       (Route.FormParsed
          (Some (Route.EntryFile
                   (Route.mkFile "recording.webm" "audio/webm"
                                 (Route.max_size + 1)))))
       (fun _ => Route.Transcribed
                   (Route.mkTranscription "hello" "english" "1.5" "[]" "[]")))
  = Route.mkResponse 400 (Route.BodyError too_large None None).
Proof.
  destruct (X16_POST_size_limit
              (Some (Route.EntryFile
                       (Route.mkFile "recording.webm" "audio/webm"
                                     (Route.max_size + 1))))
              (fun _ => Route.Transcribed
                          (Route.mkTranscription "hello" "english" "1.5"
                                                 "[]" "[]")))
    as (_ & Hfile & _).
  destruct (Hfile _ eq_refl) as (_ & _ & Hlarge).
  apply Hlarge. cbn [Route.size]. lia.
Defined.

(** ** The page and the endpoint together *)

Lemma call_result_roundtrip (body : FormData)
    (openai : Route.File → Route.OpenAIOutcome) :
  call_result (roundtrip body openai)
  = if bool_decide (Route.size (uploaded_file body) ≤ Route.max_size)
    then match openai (uploaded_file body) with
         | Route.Transcribed t => Resolved (Route.text t)
         | Route.OpenAIRejected _ => Rejected whisper_failed
         end
    else Rejected too_large.
Proof.
  unfold roundtrip, upload, Route.POST.
  cbn [Route.entry_truthy Route.entry_size negb Route.entry_file].
  destruct (Nat.ltb_spec Route.max_size (Route.size (uploaded_file body))).
  - by rewrite bool_decide_eq_false_2 by lia.
  - rewrite bool_decide_eq_true_2 by lia.
    replace (Route.mkFile (Route.name (uploaded_file body))
               (Route.type (uploaded_file body))
               (Route.size (uploaded_file body)))
      with (uploaded_file body) by done.
    by destruct (openai (uploaded_file body)).
Qed.

Lemma below_max_size (n : nat) : n ≤ 25 * 1024 → n ≤ Route.max_size.
Proof.
  unfold Route.max_size. intros H.
  assert (∀ k, 1 ≤ k → n ≤ 25 * 1024 → n ≤ 25 * 1024 * k) as Hk.
  { intros k Hk. generalize (25 * 1024). intros m Hn. nia. }
  apply Hk; [lia|done].
Qed.

(** X17: a transcription call of the page answered by the endpoint. A
    recording above the size limit never reaches OpenAI and the page
    shows the endpoint's refusal; when OpenAI fails, the page shows the
    endpoint's fixed failure message, whatever the cause, and the details
    and status the endpoint adds are not shown; when OpenAI transcribes,
    its text is appended to the transcript after a blank line, or becomes
    the transcript when that was empty. In the two failures the
    transcript is kept, and in all three cases processing ends. *)
Theorem X17_page_and_endpoint (s : Session) (q : nat) (pf : PendingFetch)
    (openai : Route.File → Route.OpenAIOutcome) :
  fetches (browser s) !! q = Some pf → pf_settled pf = false →
  let file := uploaded_file (pf_body pf) in
  let s' := step (FetchSettled q (roundtrip (pf_body pf) openai)) s in
  isTranscribing (hooks s') = false
  ∧ if bool_decide (Route.size file ≤ Route.max_size)
    then match openai file with
         | Route.Transcribed t =>
             transcript (hooks s')
             = (if decide (transcript (hooks s) = "") then Route.text t
                else transcript (hooks s) +:+ Js.LFLF +:+ Route.text t)
             ∧ error (hooks s') = error (hooks s)
         | Route.OpenAIRejected _ =>
             transcript (hooks s') = transcript (hooks s)
             ∧ error (hooks s') = "Transcription error: " +:+ whisper_failed
         end
    else transcript (hooks s') = transcript (hooks s)
         ∧ error (hooks s') = "Transcription error: " +:+ too_large
         ∧ Route.sent (Route.POST (upload (pf_body pf)) openai) = [].
Proof.
  intros Hq Hpf file s'.
  pose proof (call_result_roundtrip (pf_body pf) openai) as Hres.
  fold file in Hres.
  assert (Route.size file ≤ Route.max_size
          ∨ Route.sent (Route.POST (upload (pf_body pf)) openai) = [])
    as Hsent.
  { destruct (Nat.ltb_spec Route.max_size (Route.size file)) as [Hlt|];
      [right|by left].
    unfold upload, Route.POST.
    cbn [Route.entry_truthy Route.entry_size negb]. fold file.
    by destruct (Nat.ltb_spec Route.max_size (Route.size file)); [|lia]. }
  assert (∃ b, hooks s'
               = hooks (setJustStoppedRecording b
                          (settle_hooks (roundtrip (pf_body pf) openai) s)))
    as [b Hh].
  { subst s'. revert Hres. generalize (roundtrip (pf_body pf) openai).
    intros o _. unfold step.
    destruct (render_effects_shape s (handle (FetchSettled q o) s))
      as (b & t & k & ->).
    cbn [handle]. exists b.
    destruct (onstop_resume_spec q pf o s Hq Hpf) as (Hh & _).
    cbn. by rewrite Hh. }
  rewrite Hh. unfold settle_hooks. rewrite Hres.
  case_bool_decide as Hsize.
  - by destruct (openai file).
  - destruct Hsent as [?|Hsent]; [done|]. by split_and!.
Qed.

Lemma X17_page_and_endpoint_witness :
  let openai := fun _ : Route.File =>
    Route.OpenAIRejected (mkApiError_quota) in
  let s := batch_processing in
  let s' := step (FetchSettled 0
                    (roundtrip (mkFormData
                                  opus_chunk
                                  "recording.webm") openai)) s in
  isTranscribing (hooks s') = false
  ∧ transcript (hooks s') = transcript (hooks s)
  ∧ error (hooks s') = "Transcription error: " +:+ whisper_failed.
Proof.
  intros openai s s'.
  pose proof (X17_page_and_endpoint batch_processing 0
                (mkPending (mkFormData opus_chunk
                                       "recording.webm") 0 false)
                openai eq_refl eq_refl) as [Ht Hrest].
  split; [exact Ht|].
  rewrite bool_decide_eq_true_2 in Hrest; [exact Hrest|].
  apply below_max_size. change (8 ≤ 25 * 1024). lia.
Defined.

(** ** The Copy button *)

Lemma append_same_l (a b : string) : a = a +:+ b → b = "".
Proof.
  induction a as [|c a IH]; cbn; [done|].
  intros [= H]. by apply IH.
Qed.

(** X18: the Copy button writes the transcript to the clipboard, and not
    what the transcript area shows: interim text on display is left out.
    A successful write raises the success mark, which its 2 s timeout
    lowers again; a failed write is logged to the console and shows
    nothing, leaving the clipboard, the success mark and the error
    message as they were. With an empty transcript the button does
    nothing. The transcript is never changed by copying. *)
Theorem X18_copy_button (s : Session) (c : ClipboardOutcome) :
  let s' := step (ClickCopy c) s in
  transcript (hooks s') = transcript (hooks s)
  ∧ (transcript (hooks s) = "" → s' = s)
  ∧ (transcript (hooks s) ≠ "" → c = ClipboardWritten →
     clipboard (browser s') = transcript (hooks s)
     ∧ (interimTranscript (hooks s) ≠ "" →
        clipboard (browser s') ≠ textareaValue s)
     ∧ copySuccess (hooks s') = true
     ∧ copySuccess (hooks (step CopySuccessTimeout s')) = false)
  ∧ (∀ e, transcript (hooks s) ≠ "" → c = ClipboardFailed e →
     clipboard (browser s') = clipboard (browser s)
     ∧ copySuccess (hooks s') = copySuccess (hooks s)
     ∧ error (hooks s') = error (hooks s)
     ∧ console (browser s')
       = console (browser s)
           ++ ["Failed to copy to clipboard: " +:+ message e]).
Proof.
  intros s'.
  assert (s' = handle (ClickCopy c) s) as ->.
  { subst s'. unfold step. apply render_effects_same_deps.
    - cbn [handle]. case_match; [|done]. by destruct c.
    - cbn [handle]. case_match; [|done]. by destruct c. }
  cbn [handle]. split_and!.
  - case_match; [|done]. by destruct c.
  - by intros ->.
  - intros Ht ->. apply truthy_spec in Ht. rewrite Ht.
    rewrite copyToClipboard_written. cbn. split_and!; [done| |done|].
    + intros Hi Heq. unfold textareaValue in Heq.
      by apply append_same_l in Heq.
    + unfold step.
      by destruct (render_effects_shape
                     (setCopySuccess true
                        (set_clipboard (transcript (hooks s)) s))
                     (handle CopySuccessTimeout
                        (setCopySuccess true
                           (set_clipboard (transcript (hooks s)) s))))
        as (b & t & k & ->).
  - intros e Ht ->. apply truthy_spec in Ht. rewrite Ht.
    by rewrite copyToClipboard_failed.
Qed.

Lemma X18_copy_button_witness :
  let s' := step (ClickCopy ClipboardWritten) live_with_interim in
  clipboard (browser s') = transcript (hooks live_with_interim)
  ∧ clipboard (browser s') ≠ textareaValue live_with_interim.
Proof.
  destruct (X18_copy_button live_with_interim ClipboardWritten)
    as (_ & _ & Hwritten & _).
  destruct Hwritten as (Hclip & Hshown & _); [by vm_compute|done|].
  split; [exact Hclip|]. apply Hshown. by vm_compute.
Defined.

(** ** Streams that nobody releases *)

Global Instance keeps_unclaimed_preorder (i : nat) :
  PreOrder (keeps_unclaimed i).
Proof.
  split; [by intros s Hs|]. intros a b c Hab Hbc Ha. by apply Hbc, Hab.
Qed.

Lemma count_zero_lookup {A} (f : A → bool) (l : list A) (k : nat) (x : A) :
  count f l = 0 → l !! k = Some x → f x = false.
Proof.
  revert k. induction l as [|y l IH]; intros [|k]; cbn; try done.
  - intros H [= ->]. destruct (f x); [lia|done].
  - intros H Hk. apply (IH k); [|done]. destruct (f y); lia.
Qed.

Lemma unclaimed_tables (i : nat) (s s' : Session) :
  mediaStreams (browser s') = mediaStreams (browser s) →
  mediaRecorders (browser s') = mediaRecorders (browser s) →
  fetches (browser s') = fetches (browser s) →
  keeps_unclaimed i s s'.
Proof. unfold keeps_unclaimed, unclaimed. by intros -> -> ->. Qed.

Lemma getUserMedia_unclaimed i um :
  preserves (keeps_unclaimed i) (getUserMedia um).
Proof.
  intros s. destruct um; [|by apply unclaimed_tables].
  intros (Hi & Hr & Hc). split_and!; [|done|done].
  cbn. by apply lookup_app_l_Some.
Qed.

Lemma count_new_recorder (i : nat) (streams : list nat)
    (recs : list MediaRecorder) (mimeType : string) (st : RecorderState) :
  count (due_recorder i) recs = 0 → i < length streams →
  count (due_recorder i)
    (alter (set_rec_state st) (length recs)
       (recs ++ [mkRecorder (length streams) mimeType inactive false])) = 0.
Proof.
  intros Hr Hi. rewrite count_alter, count_app by done. rewrite Hr. cbn.
  by rewrite bool_decide_eq_false_2 by lia.
Qed.

Lemma startWhisperRecording_unclaimed i um ts :
  preserves (keeps_unclaimed i) (startWhisperRecording um ts).
Proof.
  intros s (Hi & Hr & Hc).
  unfold startWhisperRecording, try_catch, mbind, M_bind, bind,
    exec, getUserMedia, new_MediaRecorder.
  destruct um as [|e]; [|done]. cbn.
  destruct (ts _); cbn.
  - split_and!; [by apply lookup_app_l_Some| |done].
    cbn. apply count_new_recorder; [done|]. by eapply lookup_lt_Some.
  - split_and!; [by apply lookup_app_l_Some|done|done].
Qed.

Lemma recorder_stop_unclaimed i rid s :
  keeps_unclaimed i s (recorder_stop rid s).
Proof.
  intros (Hi & Hr & Hc). split_and!; [done| |done].
  simpl. by rewrite count_alter.
Qed.

Lemma onstop_begin_unclaimed i rid s :
  keeps_unclaimed i s (onstop_begin rid s).
Proof.
  intros (Hi & Hr & Hc). unfold onstop_begin.
  destruct (mediaRecorders (browser s) !! rid) as [r|] eqn:Hrid; [|done].
  destruct (rec_state r); [|done].
  destruct (stop_fired r) eqn:Hfired; [done|].
  unfold transcribe_before_await, mbind, M_bind, bind, exec, mret, M_ret, ret.
  pose proof (count_zero_lookup _ _ _ _ Hr Hrid) as Hdue.
  pose proof (count_insert (due_recorder i) _ rid r
    (mkRecorder (rec_stream r) (rec_mimeType r) inactive true) Hrid) as Hins.
  rewrite Hdue, Hr in Hins.
  unfold due_recorder in Hdue. rewrite Hfired in Hdue.
  unfold unclaimed. cbn in *.
  split_and!; [done|lia|].
  rewrite count_app, Hc. cbn. by rewrite Hdue.
Qed.

Lemma onstop_resume_unclaimed i q o s :
  keeps_unclaimed i s (onstop_resume q o s).
Proof.
  intros (Hi & Hr & Hc).
  destruct (fetches (browser s) !! q) as [p|] eqn:Hq;
    [|unfold onstop_resume; by rewrite Hq].
  destruct (pf_settled p) eqn:Hp;
    [unfold onstop_resume; by rewrite Hq, Hp|].
  destruct (onstop_resume_spec q p o s Hq Hp)
    as (_ & _ & _ & Hstreams & _ & Hrecs & Hcalls).
  pose proof (count_zero_lookup _ _ _ _ Hc Hq) as Hdue.
  pose proof (count_insert (due_call i) _ q p
    (mkPending (pf_body p) (pf_stream p) true) Hq) as Hins.
  rewrite Hdue, Hc in Hins.
  unfold due_call in Hdue. rewrite Hp in Hdue.
  apply bool_decide_eq_false in Hdue.
  unfold unclaimed. rewrite Hstreams, Hrecs, Hcalls.
  rewrite list_lookup_alter_ne by done.
  cbn in *. split_and!; [done|done|lia].
Qed.

Lemma run_unclaimed (i : nat) (evs : list Event) (s : Session) :
  unclaimed i s → unclaimed i (run evs s).
Proof.
  revert s. induction evs as [|ev evs IH]; intros s Hs; [done|].
  cbn. apply IH. revert Hs.
  apply (step_tables (keeps_unclaimed i));
    auto using unclaimed_tables, getUserMedia_unclaimed,
      startWhisperRecording_unclaimed, recorder_stop_unclaimed,
      onstop_begin_unclaimed, onstop_resume_unclaimed.
Qed.

Lemma run_streams_inv (evs : list Event) (p : ProbeOutcome) :
  streams_inv (run evs (mount p)).
Proof.
  generalize (mount_streams_inv p). generalize (mount p).
  induction evs as [|ev evs IH]; intros s Hs; [done|].
  cbn. by apply IH, step_keeps.
Qed.

(** X19: a microphone stream for which no recorder was made is never
    released. In every reachable session, the stream that the toggle
    acquires for a Live capture, and the stream that a Batch start
    acquires when the browser supports none of the four audio types, are
    still live after any further sequence of events: no handler stops
    their tracks. *)
Theorem X19_stream_without_recorder_stays_live (p : ProbeOutcome)
    (evs later : list Event) (ts : string → bool) :
  let s := run evs (mount p) in
  let s1 := step (ClickToggle MediaGranted ts) s in
  isTranscribing (hooks s) = false →
  (transcriptionMethod (hooks s) = web_api
   ∧ isListening (hooks s) = false
   ∧ isSupported (hooks s) = true
   ∧ is_Some (recognitionRef (refs s)))
  ∨ (transcriptionMethod (hooks s) = aiml
     ∧ isRecording (hooks s) = false
     ∧ none_supported ts supportedTypes) →
  length (mediaStreams (browser s1)) = S (length (mediaStreams (browser s)))
  ∧ mediaStreams (browser (run later s1))
      !! length (mediaStreams (browser s)) = Some 0.
Proof.
  intros s s1 Ht Hcase.
  pose proof (run_streams_inv evs p) as Hinv. fold s in Hinv.
  destruct (Hinv (length (mediaStreams (browser s)))) as [_ Hdue].
  specialize (Hdue (reflexivity _)).
  assert (mediaStreams (browser s1) = mediaStreams (browser s) ++ [0]
          ∧ mediaRecorders (browser s1) = mediaRecorders (browser s)
          ∧ fetches (browser s1) = fetches (browser s)) as (Hs & Hr & Hc).
  { subst s1. unfold step.
    destruct (render_effects_shape s (handle (ClickToggle MediaGranted ts) s))
      as (b & t & k & ->).
    cbn [handle]. rewrite Ht. unfold toggleRecording.
    destruct Hcase as [(Hm & Hl & Hsup & [r Href])|(Hm & Hrec & Hnone)].
    - rewrite Hm, Hl, Hsup. unfold startListening. rewrite Href. cbn.
      unfold try_catch, mbind, M_bind, bind, exec, getUserMedia,
        recognition_set_lang, recognition_start. cbn. rewrite Href. cbn.
      by destruct (started r).
    - rewrite Hm, Hrec. unfold startWhisperRecording.
      change (pickMimeType ts supportedTypes _) with (chosen_mimeType ts).
      apply chosen_mimeType_spec in Hnone. revert Hnone.
      generalize (chosen_mimeType ts). intros mimeType Hnone.
      unfold try_catch, mbind, M_bind, bind, exec, getUserMedia,
        new_MediaRecorder. cbn. by rewrite Hnone. }
  split; [rewrite Hs, length_app; cbn; lia|].
  apply run_unclaimed. unfold unclaimed. rewrite Hs, Hr, Hc.
  split_and!; [|lia|lia].
  by rewrite lookup_app_r, Nat.sub_diag by lia.
Qed.

Lemma X19_stream_without_recorder_stays_live_witness :
  let s := run [] (mount ProbeRunning) in
  let s1 := step (ClickToggle MediaGranted any_type) s in
  length (mediaStreams (browser s1)) = S (length (mediaStreams (browser s)))
  ∧ mediaStreams
      (browser (run [RecognitionStart; ClickToggle MediaGranted any_type;
                     RecognitionEnd; SelectMethod aiml] s1))
      !! length (mediaStreams (browser s)) = Some 0.
Proof.
  apply (X19_stream_without_recorder_stays_live ProbeRunning []
           [RecognitionStart; ClickToggle MediaGranted any_type;
            RecognitionEnd; SelectMethod aiml] any_type eq_refl).
  left. split_and!; [done|done|done|by eexists].
Defined.

(** ** The auto-copy checkbox *)

(** X20: the auto-copy checkbox alone never copies. Unchecking it cancels
    a pending auto-copy: afterwards no timeout is pending, the completion
    mark is lowered and a late timeout does nothing. Checking it, even
    with text in the transcript, schedules nothing: only the next capture
    completion does. *)
Theorem X20_auto_copy_checkbox (s : Session) :
  effect_settled s →
  let off := step (AutoCopyChecked false) s in
  let on := step (AutoCopyChecked true) s in
  autoCopyTimer (browser off) = None
  ∧ justStoppedRecording (hooks off) = false
  ∧ (∀ c, step (AutoCopyTimeout c) off = off)
  ∧ (autoCopyEnabled (hooks s) = false →
     autoCopyTimer (browser on) = None
     ∧ justStoppedRecording (hooks on) = false
     ∧ autoCopyEnabled (hooks on) = true).
Proof.
  intros Hs off on.
  assert (effect_settled off) as Hoff by by apply step_settled.
  assert (effect_settled on) as Hon by by apply step_settled.
  assert (autoCopyEnabled (hooks off) = false
          ∧ autoCopyEnabled (hooks on) = true) as [Eoff Eon].
  { subst off on. unfold step.
    destruct (render_effects_shape s (handle (AutoCopyChecked false) s))
      as (b & t & k & ->).
    by destruct (render_effects_shape s (handle (AutoCopyChecked true) s))
      as (b' & t' & k' & ->). }
  assert (justStoppedRecording (hooks off) = false) as Foff.
  { unfold effect_settled in Hoff.
    destruct (justStoppedRecording (hooks off)); [|done].
    destruct Hoff as [Hoff _]. congruence. }
  assert (autoCopyTimer (browser off) = None) as Toff.
  { unfold effect_settled in Hoff. by rewrite Foff in Hoff. }
  split_and!; [done|done| |].
  - intros c. unfold step. cbn [handle]. rewrite Toff.
    apply render_effects_id.
  - intros Hdisabled.
    assert (justStoppedRecording (hooks on) = false) as Fon.
    { destruct (justStoppedRecording (hooks on)) eqn:Hflag; [|done].
      subst on. unfold step in Hflag. apply render_effects_flag in Hflag.
      cbn in Hflag. unfold effect_settled in Hs. rewrite Hflag in Hs.
      destruct Hs as [Hs _]. congruence. }
    unfold effect_settled in Hon. by rewrite Fon in Hon.
Qed.

Lemma X20_auto_copy_checkbox_witness :
  let s := run batch_capture_events (mount ProbeRunning) in
  let off := step (AutoCopyChecked false) s in
  autoCopyTimer (browser s) = Some (500, "hello")
  ∧ autoCopyTimer (browser off) = None
  ∧ justStoppedRecording (hooks off) = false.
Proof.
  split; [by vm_compute|].
  destruct (X20_auto_copy_checkbox
              (run batch_capture_events (mount ProbeRunning)))
    as (Htimer & Hflag & _).
  - apply run_settled, mount_settled.
  - by split.
Defined.

(** ** Processing and the calls in flight *)

Lemma handle_calls (ev : Event) (s : Session) :
  (∀ rid, ev ≠ RecorderStop rid) → (∀ q o, ev ≠ FetchSettled q o) →
  isTranscribing (hooks (handle ev s)) = isTranscribing (hooks s)
  ∧ fetches (browser (handle ev s)) = fetches (browser s).
Proof.
  intros Hstop Hsettle.
  destruct ev;
    try (match goal with
         | |- context [handle ?e s] =>
             by destruct (controls_quiet e s I) as (_ & _ & -> & _ & _ & _ & ->)
         end);
    try solve [ exfalso; eapply Hstop; reflexivity
              | exfalso; eapply Hsettle; reflexivity ];
    unfold_handlers; repeat case_match; simplify_eq/=; done.
Qed.

Lemma step_processing_has_call (ev : Event) (s : Session) :
  render_error ev s = None →
  processing_has_call s → processing_has_call (step ev s).
Proof.
  intros Hrender Hs. unfold processing_has_call, in_flight, step.
  destruct (render_effects_shape s (handle ev s)) as (b & t & k & ->).
  change (isTranscribing (hooks (handle ev s)) = true →
          ∃ q pf, fetches (browser (handle ev s)) !! q = Some pf
                  ∧ pf_settled pf = false).
  assert ((∃ rid, ev = RecorderStop rid) ∨ (∃ q o, ev = FetchSettled q o)
          ∨ ((∀ rid, ev ≠ RecorderStop rid)
             ∧ (∀ q o, ev ≠ FetchSettled q o)))
    as [[rid ->]|[(q & o & ->)|[Hstop Hsettle]]]
    by (destruct ev; eauto; right; right; by split).
  3: by destruct (handle_calls ev s Hstop Hsettle) as [-> ->].
  - cbn [handle]. unfold onstop_begin.
    destruct (mediaRecorders (browser s) !! rid) as [r|]; [|exact Hs].
    destruct (rec_state r); [|exact Hs].
    destruct (stop_fired r); [exact Hs|].
    unfold transcribe_before_await, mbind, M_bind, bind, exec, mret, M_ret,
      ret. cbn. intros _.
    eexists (length (fetches (browser s))), _.
    by rewrite lookup_app_r, Nat.sub_diag by lia.
  - cbn [handle].
    destruct (fetches (browser s) !! q) as [pf|] eqn:Hq;
      [|unfold onstop_resume; rewrite Hq; exact Hs].
    destruct (pf_settled pf) eqn:Hpf;
      [unfold onstop_resume; rewrite Hq, Hpf; exact Hs|].
    rewrite (render_error_spec q pf o s Hq Hpf) in Hrender.
    destruct (onstop_resume_spec q pf o s Hq Hpf) as (-> & _).
    unfold settle_hooks. by destruct (call_result o).
Qed.

Lemma run_processing_has_call (evs : list Event) (s : Session) :
  renders evs s = true →
  processing_has_call s → processing_has_call (run evs s).
Proof.
  revert s. induction evs as [|ev evs IH]; intros s Hevs Hs; [done|].
  cbn [run]. cbn [renders] in Hevs.
  destruct (render_error ev s) eqn:Hev; [done|].
  apply IH; [done|]. by apply step_processing_has_call.
Qed.

(** X21: while it is mounted, the page never shows a transcription in
    progress without a call in flight. In every session reached from
    mount by renders that all succeeded, if [isTranscribing] is set then
    some transcription call has not settled yet. When that call settles
    and the render succeeds, the processing is over; when it is answered
    successfully with the body [null], the render throws and the state
    stays as it was. *)
Theorem X21_processing_has_call (p : ProbeOutcome) (evs : list Event) :
  let s := run evs (mount p) in
  renders evs (mount p) = true →
  isTranscribing (hooks s) = true →
  ∃ q, in_flight q s
       ∧ ∀ o, match render_error (FetchSettled q o) s with
              | None =>
                  isTranscribing (hooks (step (FetchSettled q o) s)) = false
              | Some _ => hooks (step (FetchSettled q o) s) = hooks s
              end.
Proof.
  intros s Hevs.
  assert (processing_has_call s) as Hs.
  { subst s. apply run_processing_has_call; [done|]. by destruct p. }
  intros Ht. destruct (Hs Ht) as (q & pf & Hq & Hpf).
  exists q. split; [by exists pf|]. intros o.
  rewrite (render_error_spec q pf o s Hq Hpf).
  destruct (onstop_resume_spec q pf o s Hq Hpf) as (Hh & _).
  destruct (call_result o) eqn:Hres.
  - unfold step.
    destruct (render_effects_shape s (handle (FetchSettled q o) s))
      as (b & t & k & ->).
    cbn [handle]. cbn. rewrite Hh. unfold settle_hooks. by rewrite Hres.
  - unfold step.
    destruct (render_effects_shape s (handle (FetchSettled q o) s))
      as (b & t & k & ->).
    cbn [handle]. cbn. rewrite Hh. unfold settle_hooks. by rewrite Hres.
  - unfold step.
    rewrite render_effects_same_deps;
      cbn [handle]; unfold keydown_deps, autoCopy_deps;
      rewrite ?Hh; unfold settle_hooks; by rewrite Hres.
Qed.

Lemma X21_processing_has_call_witness :
  ∃ q, in_flight q batch_processing
       ∧ ∀ o, match render_error (FetchSettled q o) batch_processing with
              | None =>
                  isTranscribing
                    (hooks (step (FetchSettled q o) batch_processing)) = false
              | Some _ =>
                  hooks (step (FetchSettled q o) batch_processing)
                  = hooks batch_processing
              end.
Proof.
  apply (X21_processing_has_call ProbeRunning
           [SelectMethod aiml; ClickToggle MediaGranted any_type;
            RecorderData opus_chunk;
            ClickToggle MediaGranted any_type; RecorderStop 0]).
  - by vm_compute.
  - by vm_compute.
Defined.

(** ** The transcript of a Live capture *)

Lemma step_result_transcript (event : SpeechRecognitionEvent) (s : Session) :
  transcript (hooks (step (RecognitionResult event) s))
  = transcript (hooks s) +:+ appended event.
Proof.
  unfold step.
  destruct (render_effects_shape s (handle (RecognitionResult event) s))
    as (b & t & k & ->).
  cbn [handle]. unfold onresult, appended.
  rewrite onresult_loop_spec by lia. fold (batch event).
  change ("" +:+ ?x) with x.
  destruct (Js.truthy (join (finals (batch event)))); cbn.
  - done.
  - by rewrite append_nil_r.
Qed.

Lemma step_end_text (s : Session) :
  textareaValue (step RecognitionEnd s) = transcript (hooks s).
Proof.
  unfold step, textareaValue.
  destruct (render_effects_shape s (handle RecognitionEnd s))
    as (b & t & k & ->).
  cbn [handle]. unfold onend, recognizer_ended, stopTimer.
  repeat case_match; cbn; apply append_nil_r.
Qed.

(** X22: over a Live capture the transcript grows by the finalized text
    of each result event, in the order of the events, each non-empty
    batch followed by one space; events without finalized text add
    nothing. When the recognizer ends, the transcript area shows exactly
    that: interim text that was never finalized is gone. *)
Theorem X22_live_capture_transcript (events : list SpeechRecognitionEvent)
    (s : Session) :
  transcript (hooks (run (RecognitionResult <$> events) s))
  = transcript (hooks s) +:+ join (appended <$> events)
  ∧ textareaValue
      (run ((RecognitionResult <$> events) ++ [RecognitionEnd]) s)
    = transcript (hooks s) +:+ join (appended <$> events).
Proof.
  assert (∀ s, transcript (hooks (run (RecognitionResult <$> events) s))
               = transcript (hooks s) +:+ join (appended <$> events)) as H.
  { clear s. induction events as [|event events IH]; intros s.
    - cbn. by rewrite append_nil_r.
    - cbn [fmap list_fmap run join foldr]. rewrite IH.
      rewrite step_result_transcript. by rewrite append_assoc. }
  split; [apply H|].
  rewrite run_app. cbn [run]. by rewrite step_end_text.
Qed.
